(** * The custom HTTP probe of docker-slim

    A shallow embedding of
    [internal/app/master/inspectors/container/probes/http/custom_probe.go]:
    the port resolution done by [NewCustomProbe] and the probe loop that
    [Start] runs in its goroutine, with the properties the design document
    states about them. *)

From stdpp Require Import gmap strings list fin_maps pretty.
From Stdlib Require Import Ascii ZArith Lia.

Set Warnings "-clear-no-such-hyp".

Open Scope string_scope.
Open Scope Z_scope.
Open Scope list_scope.

(** * Collaborator data *)

(** One host binding of a container port (the docker client's
    [PortBinding]). *)
Record PortBinding := {
  HostIP : string;
  HostPort : string
}.

(** Modelled from the spec: [container.Inspector] is declared outside this
    file; these are the fields [custom_probe.go] reads from it.
    [NetworkSettingsPorts] is [ContainerInfo.NetworkSettings.Ports], a Go
    map from a container port to its host bindings; [ExposedPorts] is
    [ImageInspector.DockerfileInfo.ExposedPorts]. *)
Record Inspector := {
  NetworkSettingsPorts : gmap string (list PortBinding);
  CmdPort : string;
  EvtPort : string;
  ExposedPorts : list string;
  DockerHostIP : string
}.

(** Modelled from the spec: [config.HTTPProbeCmd] is declared outside this
    file; a probe command has a method, a resource path, an optional
    protocol, raw header lines and optional basic-auth credentials. *)
Record HTTPProbeCmd := {
  Protocol : string;
  Method : string;
  Resource : string;
  Headers : list string;
  Username : string;
  Password : string
}.

(** [CustomProbe].  [RetryCount] and [RetryWait] are Go [int]s (64 bits
    wide), kept as [Z]; [TargetPorts] are [uint16]s, kept as [N].  The
    [doneChan] field is the [doneClosed] flag of the run state below. *)
Record CustomProbe := {
  PrintState : bool;
  PrintPrefix : string;
  Ports : list string;
  Cmds : list HTTPProbeCmd;
  RetryCount : Z;
  RetryWait : Z;
  TargetPorts : list N;
  ContainerInspector : Inspector
}.

(** * NewCustomProbe: port resolution *)

Module Resolver.

Section Resolve.
(** Go does not fix the order in which [range] visits a map: the two
    orders [NewCustomProbe] depends on are parameters. *)
Variable rangeEntries :
  gmap string (list PortBinding) -> list (string * list PortBinding).
Variable rangeKeys : gset string -> list string.

Definition entries_order_ok : Prop :=
  forall m, rangeEntries m ≡ₚ map_to_list m.
Definition keys_order_ok : Prop :=
  forall s, rangeKeys s ≡ₚ elements s.

(** Lines 57-65.  [nsPortData[0]] on an empty slice is a run-time panic:
    [None]. *)
Fixpoint availablePorts_loop (inspector : Inspector)
    (entries : list (string * list PortBinding))
    (availablePorts : gset string) : option (gset string) :=
  match entries with
  | [] => Some availablePorts
  | (nsPortKey, nsPortData) :: rest =>
      if bool_decide (nsPortKey = CmdPort inspector)
         || bool_decide (nsPortKey = EvtPort inspector)
      then availablePorts_loop inspector rest availablePorts
      else match nsPortData !! 0%nat with
           | None => None
           | Some b =>
               availablePorts_loop inspector rest
                 ({[HostPort b]} ∪ availablePorts)
           end
  end.

Definition availablePorts (inspector : Inspector) : option (gset string) :=
  availablePorts_loop inspector
    (rangeEntries (NetworkSettingsPorts inspector)) ∅.

(** Lines 70-77: [pstr] is [fmt.Sprintf("%v", pnum)], the decimal
    rendering of the port number. *)
Fixpoint targetPorts_loop (availablePorts : gset string)
    (targetPorts : list N) (ports : list string) : list string :=
  match targetPorts with
  | [] => ports
  | pnum :: rest =>
      let pstr := pretty pnum in
      if bool_decide (pstr ∈ availablePorts)
      then targetPorts_loop availablePorts rest (ports ++ [pstr])
      else targetPorts_loop availablePorts rest ports
  end.

(** Lines 82-90: [n] is [epi + 1]; the loop runs [epi] from
    [len(ExposedPorts) - 1] down to [0]. *)
Fixpoint exposedPorts_loop (exposedPorts : list string) (n : nat)
    (ports : list string) (availablePorts : gset string)
    : list string * gset string :=
  match n with
  | O => (ports, availablePorts)
  | S epi =>
      match exposedPorts !! epi with
      | None => (ports, availablePorts)
      | Some portInfo =>
          let ports := ports ++ [portInfo] in
          let availablePorts :=
            if bool_decide (portInfo ∈ availablePorts)
            then availablePorts ∖ {[portInfo]}
            else availablePorts in
          exposedPorts_loop exposedPorts epi ports availablePorts
      end
  end.

(** Lines 69-96: the value of [probe.Ports]. *)
Definition resolvePorts (availablePorts : gset string)
    (targetPorts : list N) (exposedPorts : list string) : list string :=
  if bool_decide (0 < length targetPorts)%nat
  then targetPorts_loop availablePorts targetPorts []
  else
    let '(ports, availablePorts) :=
      if bool_decide (0 < length exposedPorts)%nat
      then exposedPorts_loop exposedPorts (length exposedPorts)
             [] availablePorts
      else ([], availablePorts) in
    ports ++ rangeKeys availablePorts.

(** [NewCustomProbe]; its [error] result is always [nil], so the result
    is the probe, or [None] for the panic of line 64. *)
Definition NewCustomProbe (inspector : Inspector)
    (cmds : list HTTPProbeCmd) (retryCount retryWait : Z)
    (targetPorts : list N) (printState : bool) (printPrefix : string)
    : option CustomProbe :=
  match availablePorts inspector with
  | None => None
  | Some avail =>
      Some {| PrintState := printState;
              PrintPrefix := printPrefix;
              Ports := resolvePorts avail targetPorts
                         (ExposedPorts inspector);
              Cmds := cmds;
              RetryCount := retryCount;
              RetryWait := retryWait;
              TargetPorts := targetPorts;
              ContainerInspector := inspector |}
  end.

End Resolve.

End Resolver.

(** * Start: the probe loop *)

Module Runner.

(** ** Go integers *)

(** [uint64] counters and [int64] durations wrap around. *)
Definition wrap_uint64 (z : Z) : Z := z mod 2 ^ 64.
Definition wrap_int64 (z : Z) : Z := (z + 2 ^ 63) mod 2 ^ 64 - 2 ^ 63.

(** [time.Second], in nanoseconds, and the [int64] product
    [d * time.Second] of a [time.Duration]. *)
Definition time_Second : Z := 1000000000.
Definition seconds (d : Z) : Z := wrap_int64 (d * time_Second).

(** ** Strings *)

(** [strings.SplitN(s, sep, 2)] for a one-byte separator: the text before
    the first separator and the text after it, or [s] alone when it holds
    no separator. *)
Fixpoint cut (sep : ascii) (s : string) : option (string * string) :=
  match s with
  | EmptyString => None
  | String c s' =>
      if Ascii.eqb c sep then Some (EmptyString, s')
      else match cut sep s' with
           | Some (before, after) => Some (String c before, after)
           | None => None
           end
  end.

Definition SplitN2 (s : string) (sep : ascii) : list string :=
  match cut sep s with
  | Some (before, after) => [before; after]
  | None => [s]
  end.

(** [strings.TrimSpace] removes the leading and the trailing white space
    of a text, white space being the runes of [unicode.IsSpace]: U+0009 to
    U+000D, U+0020, U+0085, U+00A0, U+1680, U+2000 to U+200A, U+2028,
    U+2029, U+202F, U+205F and U+3000.  A Go string is a sequence of
    bytes read as UTF-8, so a space rune is one of the byte sequences of
    [spaceRunes]; a byte that starts no valid encoding is read as U+FFFD,
    which is no space. *)
Definition byte (n : nat) : ascii := ascii_of_nat n.

Definition spaceRunes : list (list ascii) :=
  [[byte 9]; [byte 10]; [byte 11]; [byte 12]; [byte 13]; [byte 32];
   [byte 194; byte 133]; [byte 194; byte 160];
   [byte 225; byte 154; byte 128]]
  ++ ((fun n => [byte 226; byte 128; byte n]) <$> seq 128 11)
  ++ [[byte 226; byte 128; byte 168]; [byte 226; byte 128; byte 169];
      [byte 226; byte 128; byte 175]; [byte 226; byte 129; byte 159];
      [byte 227; byte 128; byte 128]].

(** The bytes of a rune as they are met from the front of a text, or from
    its back ([flip]). *)
Definition oriented (flip : bool) (r : list ascii) : list ascii :=
  if flip then rev r else r.

(** The number of bytes of the space rune the bytes [l] start with, 0 when
    they start with none. *)
Definition spaceWidth (flip : bool) (l : list ascii) : nat :=
  match list_find (fun r => oriented flip r `prefix_of` l) spaceRunes with
  | Some (_, r) => length r
  | None => 0%nat
  end.

(** Space runes are dropped from the front for as long as there is one;
    each round drops at least one byte, so [length l] rounds are enough. *)
Fixpoint trimFront (flip : bool) (fuel : nat) (l : list ascii)
    : list ascii :=
  match fuel with
  | O => l
  | S fuel' =>
      match spaceWidth flip l with
      | O => l
      | w => trimFront flip fuel' (drop w l)
      end
  end.

Definition TrimLeft (s : string) : string :=
  let l := String.list_ascii_of_string s in
  String.string_of_list_ascii (trimFront false (length l) l).

Definition TrimRight (s : string) : string :=
  let l := rev (String.list_ascii_of_string s) in
  String.string_of_list_ascii (rev (trimFront true (length l) l)).

Definition TrimSpace (s : string) : string := TrimRight (TrimLeft s).

(** Bytes that are space runes one after the other, and a text that
    neither starts nor ends with a space rune. *)
Inductive Spaces : list ascii -> Prop :=
  | Spaces_nil : Spaces []
  | Spaces_rune r l : r ∈ spaceRunes -> Spaces l -> Spaces (r ++ l).

Definition trimmed (s : string) : Prop :=
  spaceWidth false (String.list_ascii_of_string s) = 0%nat
  /\ spaceWidth true (rev (String.list_ascii_of_string s)) = 0%nat.

(** ** net/http values *)

(** A [*http.Request]: [Header] holds the entries of the request header,
    key and value, in the order [Header.Add] put them there (the Go map
    from a key to its values is this list grouped by key); [BasicAuth]
    holds the credentials given to [SetBasicAuth]. *)
Record Request := {
  ReqMethod : string;
  ReqURL : string;
  Header : list (string * string);
  BasicAuth : option (string * string)
}.

(** [textproto.CanonicalMIMEHeaderKey]: a key made of token bytes only
    (letters, digits and [!#$%&'*+-.^_`|~]) has its first letter and every
    letter after a hyphen in upper case and its other letters in lower
    case; any other key is left as it is. *)
Definition isTokenByte (c : ascii) : bool :=
  let n := nat_of_ascii c in
  ((48 <=? n) && (n <=? 57) || (65 <=? n) && (n <=? 90)
   || (97 <=? n) && (n <=? 122)
   || bool_decide (n ∈ [33; 35; 36; 37; 38; 39; 42; 43; 45; 46;
                        94; 95; 96; 124; 126]))%nat.

Fixpoint allBytes (f : ascii -> bool) (s : string) : bool :=
  match s with
  | EmptyString => true
  | String c s' => f c && allBytes f s'
  end.

Definition canonicalByte (upper : bool) (c : ascii) : ascii :=
  let n := nat_of_ascii c in
  if (upper && (97 <=? n) && (n <=? 122))%nat then byte (n - 32)
  else if (negb upper && (65 <=? n) && (n <=? 90))%nat then byte (n + 32)
  else c.

Fixpoint canonicalBytes (upper : bool) (s : string) : string :=
  match s with
  | EmptyString => EmptyString
  | String c s' =>
      let c' := canonicalByte upper c in
      String c' (canonicalBytes (Ascii.eqb c' "-") s')
  end.

Definition CanonicalMIMEHeaderKey (key : string) : string :=
  if allBytes isTokenByte key then canonicalBytes true key else key.

(** [req.Header.Add(key, value)]: the value is appended to the values of
    the canonical form of the key. *)
Definition Header_Add (req : Request) (key value : string) : Request :=
  {| ReqMethod := ReqMethod req; ReqURL := ReqURL req;
     Header := Header req ++ [(CanonicalMIMEHeaderKey key, value)];
     BasicAuth := BasicAuth req |}.

Definition SetBasicAuth (req : Request) (username password : string)
    : Request :=
  {| ReqMethod := ReqMethod req; ReqURL := ReqURL req;
     Header := Header req;
     BasicAuth := Some (username, password) |}.

(** The [error] of a call: a [*url.Error] with its [Err] field, or any
    other error; [msg] is what [Error()] returns. *)
Inductive InnerError :=
  | io_EOF
  | inner_error (msg : string).

Inductive error :=
  | url_Error (Err : InnerError) (msg : string)
  | plain_error (msg : string).

Definition Error (e : error) : string :=
  match e with
  | url_Error _ msg => msg
  | plain_error msg => msg
  end.

(** What [httpClient.Do] returns: a response with its status code and a
    [nil] error, or an error. *)
Inductive Result :=
  | DoOk (StatusCode : Z)
  | DoErr (err : error).

(** ** Observable effects *)

(** The lines [fmt.Printf] writes, field by field; the [time] field of the
    call line is left out. *)
Inductive Line :=
  | LineStarting (prefix : string)
  | LineCall (prefix : string) (status : Z) (method target : string)
      (attempt : Z) (callErrorStr : string)
  | LineSummary (prefix : string) (total failures successful : Z)
  | LineDone (prefix warning : string).

Inductive Event :=
  | EvSleep (d : Z)
  | EvPrint (l : Line)
  | EvLog (msg : string)
  | EvDo (req : Request) (res : Result)
  | EvClose.

(** The state of the goroutine: its three [uint64] counters, whether
    [doneChan] is closed, and everything done so far. *)
Record RunState := {
  callCount : Z;
  errCount : Z;
  okCount : Z;
  doneClosed : bool;
  trace : list Event
}.

(** A computation returns a value or panics. *)
Inductive Outcome (A : Type) :=
  | Ret (a : A) (s : RunState)
  | Panic (s : RunState).
Arguments Ret {A} a s.
Arguments Panic {A} s.

Definition state_of {A} (o : Outcome A) : RunState :=
  match o with
  | Ret _ s => s
  | Panic s => s
  end.

Definition M (A : Type) : Type := RunState -> Outcome A.

Definition ret {A} (a : A) : M A := fun s => Ret a s.
Definition bind {A B} (c : M A) (k : A -> M B) : M B :=
  fun s => match c s with
           | Ret a s' => k a s'
           | Panic s' => Panic s'
           end.
Definition panic {A} : M A := fun s => Panic s.

Declare Scope run_scope.
Delimit Scope run_scope with run.
Notation "x <- c ;; k" := (bind c (fun x => k))
  (at level 100, c at next level, right associativity) : run_scope.
Notation "c ;; k" := (bind c (fun _ => k))
  (at level 100, right associativity) : run_scope.
Open Scope run_scope.

Definition emit (e : Event) : M unit :=
  fun s => Ret tt {| callCount := callCount s; errCount := errCount s;
                     okCount := okCount s; doneClosed := doneClosed s;
                     trace := trace s ++ [e] |}.

Definition when (b : bool) (c : M unit) : M unit := if b then c else ret tt.

Definition incr_callCount : M unit :=
  fun s => Ret tt {| callCount := wrap_uint64 (callCount s + 1);
                     errCount := errCount s; okCount := okCount s;
                     doneClosed := doneClosed s; trace := trace s |}.
Definition incr_errCount : M unit :=
  fun s => Ret tt {| callCount := callCount s;
                     errCount := wrap_uint64 (errCount s + 1);
                     okCount := okCount s;
                     doneClosed := doneClosed s; trace := trace s |}.
Definition incr_okCount : M unit :=
  fun s => Ret tt {| callCount := callCount s; errCount := errCount s;
                     okCount := wrap_uint64 (okCount s + 1);
                     doneClosed := doneClosed s; trace := trace s |}.

(** [var callCount, errCount, okCount uint64]. *)
Definition declare_counters : M unit :=
  fun s => Ret tt {| callCount := 0; errCount := 0; okCount := 0;
                     doneClosed := doneClosed s; trace := trace s |}.

(** [close(p.doneChan)]; closing a closed channel panics. *)
Definition close_doneChan : M unit :=
  fun s => if doneClosed s then Panic s
           else Ret tt {| callCount := callCount s; errCount := errCount s;
                          okCount := okCount s; doneClosed := true;
                          trace := trace s ++ [EvClose] |}.

Definition get {A} (f : RunState -> A) : M A := fun s => Ret (f s) s.

Fixpoint for_range {A} (l : list A) (body : A -> M unit) : M unit :=
  match l with
  | [] => ret tt
  | x :: rest => body x ;; for_range rest body
  end.

(** [for i := 0; i < n; i++ { body }] where the body says whether it left
    the loop by [break]; [fuel] is the number of iterations left. *)
Fixpoint for_retry (body : Z -> M bool) (fuel : nat) (i : Z) : M unit :=
  match fuel with
  | O => ret tt
  | S fuel' =>
      brk <- body i ;;
      if brk : bool then ret tt else for_retry body fuel' (i + 1)
  end.

Definition probeRetryCount : Z := 5.

Section Run.
(** [http.NewRequest], [None] when it returns a [nil] request and an
    error, and [httpClient.Do], whose answer may depend on everything
    that happened before the call. *)
Variable NewRequest : string -> string -> option Request.
Variable Do : list Event -> Request -> Result.

(** Lines 154-164.  [req] is the pointer [http.NewRequest] returned:
    [None] is [nil], and [req.Header] on it is a nil dereference. *)
Fixpoint applyHeaders (headers : list string) (req : option Request)
    : M (option Request) :=
  match headers with
  | [] => ret req
  | hline :: rest =>
      match SplitN2 hline ":" with
      | [h0; h1] =>
          let hname := TrimSpace h0 in
          let hvalue := TrimSpace h1 in
          match req with
          | None => panic
          | Some r => applyHeaders rest (Some (Header_Add r hname hvalue))
          end
      | _ =>
          emit (EvLog (String.append "ignoring malformed header ("
                         (String.append hline ")"))) ;;
          applyHeaders rest req
      end
  end.

(** Lines 166-168. *)
Definition applyBasicAuth (cmd : HTTPProbeCmd) (req : option Request)
    : M (option Request) :=
  if bool_decide (Username cmd <> "") || bool_decide (Password cmd <> "")
  then match req with
       | None => panic
       | Some r => ret (Some (SetBasicAuth r (Username cmd) (Password cmd)))
       end
  else ret req.

(** Line 170: [Do] reads its argument, a [nil] request panics. *)
Definition httpClient_Do (req : option Request) : M Result :=
  match req with
  | None => panic
  | Some r =>
      res <- get (fun s => Do (trace s) r) ;;
      emit (EvDo r res) ;;
      ret res
  end.

(** Lines 138-150. *)
Definition maxRetryCount (p : CustomProbe) : Z :=
  if 0 <? RetryCount p then RetryCount p else probeRetryCount.

Definition notReadyErrorWait (p : CustomProbe) : Z :=
  if 0 <? RetryWait p then wrap_int64 (RetryWait p * 2) else 16.
Definition webErrorWait (p : CustomProbe) : Z :=
  if 0 <? RetryWait p then RetryWait p else 8.
Definition otherErrorWait (p : CustomProbe) : Z :=
  if 0 <? RetryWait p then RetryWait p ÷ 2 else 4.

(** Lines 153-219: one pass through the body of the retry loop; the
    result says whether the pass ended in [break].  Draining and closing
    the response body (lines 173-179) leaves no mark on the state. *)
Definition attempt (p : CustomProbe) (cmd : HTTPProbeCmd) (addr : string)
    (i : Z) : M bool :=
  let req := NewRequest (Method cmd) addr in
  req <- applyHeaders (Headers cmd) req ;;
  req <- applyBasicAuth cmd req ;;
  res <- httpClient_Do req ;;
  incr_callCount ;;
  let statusCode := match res with DoOk code => code | DoErr _ => 0 end in
  let callErrorStr :=
    match res with DoOk _ => "none" | DoErr err => Error err end in
  when (PrintState p)
    (emit (EvPrint (LineCall (PrintPrefix p) statusCode (Method cmd) addr
                      (i + 1) callErrorStr))) ;;
  match res with
  | DoOk _ =>
      incr_okCount ;;
      ret true
  | DoErr err =>
      incr_errCount ;;
      match err with
      | url_Error io_EOF _ =>
          emit (EvLog
            "HTTP probe - target not ready yet (retry again later)...") ;;
          emit (EvSleep (seconds (notReadyErrorWait p)))
      | url_Error _ _ =>
          emit (EvLog "HTTP probe - web error... retry again later...") ;;
          emit (EvSleep (seconds (webErrorWait p)))
      | plain_error _ =>
          emit (EvLog "HTTP probe - other error... retry again later...") ;;
          emit (EvSleep (seconds (otherErrorWait p)))
      end ;;
      ret false
  end.

(** The same pass in two parts: lines 153-171, up to and with
    [callCount++], and lines 173-219, from there on.  The state between
    the two is the point of the run right after line 171. *)
Definition attemptCall (cmd : HTTPProbeCmd) (addr : string) : M Result :=
  let req := NewRequest (Method cmd) addr in
  req <- applyHeaders (Headers cmd) req ;;
  req <- applyBasicAuth cmd req ;;
  res <- httpClient_Do req ;;
  incr_callCount ;;
  ret res.

Definition attemptRest (p : CustomProbe) (cmd : HTTPProbeCmd)
    (addr : string) (i : Z) (res : Result) : M bool :=
  let statusCode := match res with DoOk code => code | DoErr _ => 0 end in
  let callErrorStr :=
    match res with DoOk _ => "none" | DoErr err => Error err end in
  when (PrintState p)
    (emit (EvPrint (LineCall (PrintPrefix p) statusCode (Method cmd) addr
                      (i + 1) callErrorStr))) ;;
  match res with
  | DoOk _ =>
      incr_okCount ;;
      ret true
  | DoErr err =>
      incr_errCount ;;
      match err with
      | url_Error io_EOF _ =>
          emit (EvLog
            "HTTP probe - target not ready yet (retry again later)...") ;;
          emit (EvSleep (seconds (notReadyErrorWait p)))
      | url_Error _ _ =>
          emit (EvLog "HTTP probe - web error... retry again later...") ;;
          emit (EvSleep (seconds (webErrorWait p)))
      | plain_error _ =>
          emit (EvLog "HTTP probe - other error... retry again later...") ;;
          emit (EvSleep (seconds (otherErrorWait p)))
      end ;;
      ret false
  end.

(** Every call among the events [evs] that follow the history [h] has the
    result [Do] gives on the history up to that call. *)
Fixpoint answered (h evs : list Event) : Prop :=
  match evs with
  | [] => True
  | e :: evs' =>
      match e with
      | EvDo req res => res = Do h req
      | _ => True
      end
      /\ answered (h ++ [e]) evs'
  end.

(** Lines 128-133. *)
Definition protocols (cmd : HTTPProbeCmd) : list string :=
  if bool_decide (Protocol cmd = "") then ["http"; "https"]
  else [Protocol cmd].

(** Line 136: [fmt.Sprintf("%s://%v:%v%v", ...)]. *)
Definition target (p : CustomProbe) (port : string) (cmd : HTTPProbeCmd)
    (proto : string) : string :=
  String.append proto
    (String.append "://"
      (String.append (DockerHostIP (ContainerInspector p))
        (String.append ":" (String.append port (Resource cmd))))).

(** Lines 135-222: the body of the protocol loop. *)
Definition probeProtocol (p : CustomProbe) (port : string)
    (cmd : HTTPProbeCmd) (proto : string) : M unit :=
  let addr := target p port cmd proto in
  for_retry (attempt p cmd addr) (Z.to_nat (maxRetryCount p)) 0.

(** Lines 127-223: the body of the command loop. *)
Definition probeCmd (p : CustomProbe) (port : string) (cmd : HTTPProbeCmd)
    : M unit :=
  for_range (protocols cmd) (probeProtocol p port cmd).

(** Lines 126-224: the body of the port loop. *)
Definition probePort (p : CustomProbe) (port : string) : M unit :=
  for_range (Cmds p) (probeCmd p port).

(** Lines 228-241. *)
Definition printSummary (p : CustomProbe) : M unit :=
  calls <- get callCount ;;
  errs <- get errCount ;;
  oks <- get okCount ;;
  emit (EvPrint (LineSummary (PrintPrefix p) calls errs oks)) ;;
  let warning :=
    if calls =? 0 then "warning=no.calls"
    else if oks =? 0 then "warning=no.successful.calls"
    else "" in
  emit (EvPrint (LineDone (PrintPrefix p) warning)).

(** Lines 103-244: what the goroutine started by [Start] does, from its
    first statement to its last. *)
Definition Start (p : CustomProbe) : M unit :=
  emit (EvSleep (9 * time_Second)) ;;
  when (PrintState p) (emit (EvPrint (LineStarting (PrintPrefix p)))) ;;
  emit (EvLog "HTTP probe started...") ;;
  declare_counters ;;
  for_range (Ports p) (probePort p) ;;
  emit (EvLog "HTTP probe done.") ;;
  when (PrintState p) (printSummary p) ;;
  close_doneChan.

(** Every request of the configuration can be built. *)
Definition requests_ok (p : CustomProbe) : Prop :=
  forall port cmd proto,
    port ∈ Ports p -> cmd ∈ Cmds p -> proto ∈ protocols cmd ->
    is_Some (NewRequest (Method cmd) (target p port cmd proto)).

(** The run seen as a sequence of steps: an event other than a call or the
    closing of the channel, or one attempt. *)
Definition quiet (e : Event) : Prop :=
  match e with
  | EvDo _ _ | EvClose => False
  | _ => True
  end.

Inductive step (p : CustomProbe) : RunState -> RunState -> Prop :=
  | step_event s e :
      quiet e -> step p s (state_of (emit e s))
  | step_attempt s cmd addr i :
      step p s (state_of (attempt p cmd addr i s)).

(** A computation that only takes such steps, whatever its outcome. *)
Definition walks {A} (p : CustomProbe) (c : M A) : Prop :=
  forall s, rtc (step p) s (state_of (c s)).

End Run.

(** The counters right after their declaration, and the balance the
    design states for them, in [uint64] arithmetic. *)
Definition declared (s : RunState) : Prop :=
  callCount s = 0 /\ errCount s = 0 /\ okCount s = 0.

Definition balanced (s : RunState) : Prop :=
  callCount s = wrap_uint64 (okCount s + errCount s).

(** The state after lines 105-124: the warm-up sleep, the starting line and
    the declaration of the counters; and the state after
    [close(p.doneChan)]. *)
Definition startEvents (p : CustomProbe) : list Event :=
  [EvSleep (9 * time_Second)]
  ++ (if PrintState p then [EvPrint (LineStarting (PrintPrefix p))] else [])
  ++ [EvLog "HTTP probe started..."].

Definition started (p : CustomProbe) (s : RunState) : RunState :=
  {| callCount := 0; errCount := 0; okCount := 0;
     doneClosed := doneClosed s;
     trace := trace s ++ startEvents p |}.

Definition closed (s : RunState) : RunState :=
  {| callCount := callCount s; errCount := errCount s;
     okCount := okCount s; doneClosed := true;
     trace := trace s ++ [EvClose] |}.

(** [DoneChan]: a receive on the channel it returns goes through once the
    channel is closed. *)
Definition DoneChan (s : RunState) : bool := doneClosed s.

(** The state [NewCustomProbe] leaves behind: nothing has happened and
    [doneChan] is open. *)
Definition fresh : RunState :=
  {| callCount := 0; errCount := 0; okCount := 0;
     doneClosed := false; trace := [] |}.

(** ** A model of [http.NewRequest] *)

(** A method is a non-empty HTTP token. *)
Definition validMethod (method : string) : bool :=
  bool_decide (method <> "") && allBytes isTokenByte method.

(** [http.NewRequest(method, urlStr, nil)] as net/http documents it: an
    empty method stands for GET, a method that is not a token or a URL that
    does not parse gives a [nil] request and an error; [parseURL] says
    which URLs parse. *)
Definition net_http_NewRequest (parseURL : string -> bool)
    (method urlStr : string) : option Request :=
  let method := if bool_decide (method = "") then "GET" else method in
  if negb (validMethod method) then None
  else if negb (parseURL urlStr) then None
  else Some {| ReqMethod := method; ReqURL := urlStr;
               Header := []; BasicAuth := None |}.

(** ** Reading a trace *)

Definition calls (tr : list Event) : list (Request * Result) :=
  omap (fun e => match e with EvDo req res => Some (req, res) | _ => None end)
       tr.

Definition sleeps (tr : list Event) : list Z :=
  omap (fun e => match e with EvSleep d => Some d | _ => None end) tr.

Definition closes (tr : list Event) : list unit :=
  omap (fun e => match e with EvClose => Some tt | _ => None end) tr.

(** ** The request and the events of one attempt *)

(** What one header line does to the request (lines 155-163). *)
Definition addHeader (req : Request) (hline : string) : Request :=
  match SplitN2 hline ":" with
  | [h0; h1] => Header_Add req (TrimSpace h0) (TrimSpace h1)
  | _ => req
  end.

Definition malformed (hline : string) : bool :=
  match SplitN2 hline ":" with
  | [_; _] => false
  | _ => true
  end.

Definition malformedLog (hline : string) : Event :=
  EvLog (String.append "ignoring malformed header ("
           (String.append hline ")")).

Definition headerLogs (headers : list string) : list Event :=
  malformedLog <$> filter (fun hline => malformed hline = true) headers.

Definition withBasicAuth (cmd : HTTPProbeCmd) (req : Request) : Request :=
  if bool_decide (Username cmd <> "") || bool_decide (Password cmd <> "")
  then SetBasicAuth req (Username cmd) (Password cmd)
  else req.

(** The request an attempt hands to [httpClient.Do] when
    [http.NewRequest] returned [r]. *)
Definition prepared (cmd : HTTPProbeCmd) (r : Request) : Request :=
  withBasicAuth cmd (fold_left addHeader (Headers cmd) r).

(** The design's reading of a header line: the text before the first colon
    and the text after it, both trimmed; nothing for a line without a
    colon. *)
Fixpoint indexByte (c : ascii) (s : string) : option nat :=
  match s with
  | EmptyString => None
  | String c' s' =>
      if Ascii.eqb c' c then Some O else S <$> indexByte c s'
  end.

Definition headerOfLine (hline : string) : option (string * string) :=
  match indexByte ":" hline with
  | None => None
  | Some k =>
      Some (TrimSpace (String.substring 0 k hline),
            TrimSpace (String.substring (S k) (String.length hline - S k)
                         hline))
  end.

Definition addEvents (s : RunState) (evs : list Event) : RunState :=
  {| callCount := callCount s; errCount := errCount s;
     okCount := okCount s; doneClosed := doneClosed s;
     trace := trace s ++ evs |}.

(** What an attempt that reached [httpClient.Do] leaves in the trace and in
    the counters, read off lines 153-219. *)
Definition backoffEvents (p : CustomProbe) (err : error) : list Event :=
  match err with
  | url_Error io_EOF _ =>
      [EvLog "HTTP probe - target not ready yet (retry again later)...";
       EvSleep (seconds (notReadyErrorWait p))]
  | url_Error _ _ =>
      [EvLog "HTTP probe - web error... retry again later...";
       EvSleep (seconds (webErrorWait p))]
  | plain_error _ =>
      [EvLog "HTTP probe - other error... retry again later...";
       EvSleep (seconds (otherErrorWait p))]
  end.

Definition attemptEvents (p : CustomProbe) (cmd : HTTPProbeCmd)
    (addr : string) (i : Z) (req : Request) (res : Result) : list Event :=
  headerLogs (Headers cmd)
  ++ [EvDo req res]
  ++ (if PrintState p
      then [EvPrint (LineCall (PrintPrefix p)
                       (match res with DoOk code => code | DoErr _ => 0 end)
                       (Method cmd) addr (i + 1)
                       (match res with
                        | DoOk _ => "none"
                        | DoErr err => Error err
                        end))]
      else [])
  ++ match res with
     | DoOk _ => []
     | DoErr err => backoffEvents p err
     end.

(** The statements of an attempt that change the state of the goroutine,
    in the order of lines 153-219: what is logged, sent, printed or slept,
    and the three increments.  Adding a header and setting the credentials
    change the request only.  A point of the attempt is the state after
    some of these statements. *)
Inductive Op :=
  | OpEmit (e : Event)
  | OpCall
  | OpOk
  | OpErr.

Definition runOp (op : Op) : M unit :=
  match op with
  | OpEmit e => emit e
  | OpCall => incr_callCount
  | OpOk => incr_okCount
  | OpErr => incr_errCount
  end.

Definition runOps (ops : list Op) : M unit := for_range ops runOp.

Definition attemptOps (p : CustomProbe) (cmd : HTTPProbeCmd)
    (addr : string) (i : Z) (req : Request) (res : Result) : list Op :=
  (OpEmit <$> headerLogs (Headers cmd))
  ++ [OpEmit (EvDo req res); OpCall]
  ++ (OpEmit <$>
        (if PrintState p
         then [EvPrint (LineCall (PrintPrefix p)
                          (match res with DoOk code => code | DoErr _ => 0 end)
                          (Method cmd) addr (i + 1)
                          (match res with
                           | DoOk _ => "none"
                           | DoErr err => Error err
                           end))]
         else []))
  ++ match res with
     | DoOk _ => [OpOk]
     | DoErr err => OpErr :: (OpEmit <$> backoffEvents p err)
     end.

(** The statements done so far hold [callCount++] (line 171) and neither
    [okCount++] (line 201) nor [errCount++] (line 204). *)
Definition isCall (op : Op) : bool :=
  match op with
  | OpCall => true
  | _ => false
  end.

Definition isCount (op : Op) : bool :=
  match op with
  | OpOk | OpErr => true
  | _ => false
  end.

Definition inSpan (pre : list Op) : bool :=
  existsb isCall pre && negb (existsb isCount pre).

Definition attemptState (s : RunState) (res : Result) (evs : list Event)
    : RunState :=
  {| callCount := wrap_uint64 (callCount s + 1);
     errCount := match res with
                 | DoOk _ => errCount s
                 | DoErr _ => wrap_uint64 (errCount s + 1)
                 end;
     okCount := match res with
                | DoOk _ => wrap_uint64 (okCount s + 1)
                | DoErr _ => okCount s
                end;
     doneClosed := doneClosed s;
     trace := trace s ++ evs |}.

Definition succeeded (res : Result) : bool :=
  match res with
  | DoOk _ => true
  | DoErr _ => false
  end.

(** ** Counters against the trace *)

(** [n] times [c++] on a [uint64]. *)
Definition bump (n : nat) (c : Z) : Z :=
  Nat.iter n (fun c => wrap_uint64 (c + 1)) c.

Definition failed (res : Result) : bool := negb (succeeded res).

Definition successes (evs : list Event) : list (Request * Result) :=
  filter (fun c => succeeded c.2 = true) (calls evs).

Definition failures (evs : list Event) : list (Request * Result) :=
  filter (fun c => failed c.2 = true) (calls evs).

Definition failure_of (req : Request) (e : error) : Request * Result :=
  (req, DoErr e).

(** From [s] the events [evs] happened and the counters followed them:
    one [callCount++] for every call, one [okCount++] for every call that
    returned no error, one [errCount++] for every other call. *)
Definition ran (s s' : RunState) (evs : list Event) : Prop :=
  trace s' = trace s ++ evs
  /\ doneClosed s' = doneClosed s
  /\ callCount s' = bump (length (calls evs)) (callCount s)
  /\ errCount s' = bump (length (failures evs)) (errCount s)
  /\ okCount s' = bump (length (successes evs)) (okCount s).

(** The counters are [uint64] values. *)
Definition uint64 (z : Z) : Prop := 0 <= z < 2 ^ 64.

(** ** The run, combination by combination *)

Definition prints (tr : list Event) : list Line :=
  omap (fun e => match e with EvPrint l => Some l | _ => None end) tr.

(** The attempt number a call line shows. *)
Definition attemptOf (l : Line) : option Z :=
  match l with
  | LineCall _ _ _ _ attempt _ => Some attempt
  | _ => None
  end.

Definition isLog (e : Event) : Prop :=
  match e with
  | EvLog _ => True
  | _ => False
  end.

(** The combinations a run goes through, in its order: ports, then
    commands, then protocols. *)
Definition combinations (p : CustomProbe)
    : list (string * HTTPProbeCmd * string) :=
  port ← Ports p; cmd ← Cmds p; proto ← protocols cmd;
  [(port, cmd, proto)].

(** The calls of one combination with [fuel] tries: [fuel] failures, or
    fewer failures and then a success. *)
Definition retried (req : Request) (fuel : nat)
    (cs : list (Request * Result)) : Prop :=
  exists errs,
    cs = failure_of req <$> errs /\ length errs = fuel
    \/ exists code,
        cs = (failure_of req <$> errs) ++ [(req, DoOk code)]
        /\ (length errs < fuel)%nat.

(** One of the three waits of lines 143-150, in nanoseconds. *)
Definition isBackoff (p : CustomProbe) (d : Z) : Prop :=
  d = seconds (notReadyErrorWait p)
  \/ d = seconds (webErrorWait p)
  \/ d = seconds (otherErrorWait p).

(** What holds of the events of any number of attempts: one sleep, of one
    of the three waits, for each failed call; one call line for each call
    when the state is printed and no line otherwise; the channel is left
    alone. *)
Definition tidy (p : CustomProbe) (evs : list Event) : Prop :=
  length (sleeps evs) = length (failures evs)
  /\ Forall (isBackoff p) (sleeps evs)
  /\ length (prints evs)
     = (if PrintState p then length (calls evs) else O)
  /\ Forall (fun l => is_Some (attemptOf l)) (prints evs)
  /\ closes evs = [].

Definition walksBy {A} (R : RunState -> RunState -> Prop) (c : M A)
    : Prop :=
  forall s, rtc R s (state_of (c s)).

Section Combinations.
Variable NewRequest : string -> string -> option Request.
Variable Do : list Event -> Request -> Result.

(** The request [http.NewRequest] gives for a combination. *)
Definition newRequestOf (p : CustomProbe)
    (c : string * HTTPProbeCmd * string) : option Request :=
  NewRequest (Method c.1.2) (target p c.1.1 c.1.2 c.2).

Definition probeCombination (p : CustomProbe)
    (c : string * HTTPProbeCmd * string) : M unit :=
  probeProtocol NewRequest Do p c.1.1 c.1.2 c.2.

(** The events of a combination whose request could be built: its calls
    are tries of that request, each answered by [Do]. *)
Definition combinationEvents (p : CustomProbe)
    (c : string * HTTPProbeCmd * string) (evs : list Event) : Prop :=
  exists r,
    newRequestOf p c = Some r
    /\ retried (prepared c.1.2 r) (Z.to_nat (maxRetryCount p)) (calls evs)
    /\ Forall (fun call => exists h,
                 call = (prepared c.1.2 r, Do h (prepared c.1.2 r)))
         (calls evs)
    /\ closes evs = [].

(** A state and the state one attempt later. *)
Definition tries (p : CustomProbe) (s s' : RunState) : Prop :=
  exists cmd addr i, s' = state_of (attempt NewRequest Do p cmd addr i s).

End Combinations.

(** The events after the loops: the final log line and, when the state is
    printed, the summary and the closing line. *)
Definition finishEvents (p : CustomProbe) (s : RunState) : list Event :=
  EvLog "HTTP probe done."
  :: if PrintState p
     then [EvPrint (LineSummary (PrintPrefix p) (callCount s)
                      (errCount s) (okCount s));
           EvPrint (LineDone (PrintPrefix p)
             (if callCount s =? 0 then "warning=no.calls"
              else if okCount s =? 0 then "warning=no.successful.calls"
              else ""))]
     else [].

End Runner.

(** * Scenarios *)

Module Scenarios.
Import Runner.

(** The container of the design's scenarios: one mapped port per listed
    host port, next to the command and event ports of the sensor. *)
Definition binding (hostPort : string) : list PortBinding :=
  [{| HostIP := "0.0.0.0"; HostPort := hostPort |}].

Definition inspector_8080 : Inspector :=
  {| NetworkSettingsPorts :=
       <["8080/tcp" := binding "8080"]> ∅;
     CmdPort := "65501/tcp";
     EvtPort := "65502/tcp";
     ExposedPorts := ["8080"; "9090"];
     DockerHostIP := "127.0.0.1" |}.

Definition inspector_8080_9090 : Inspector :=
  {| NetworkSettingsPorts :=
       <["8080/tcp" := binding "8080"]>
         (<["9090/tcp" := binding "9090"]>
            (<["65501/tcp" := binding "32768"]> ∅));
     CmdPort := "65501/tcp";
     EvtPort := "65502/tcp";
     ExposedPorts := [];
     DockerHostIP := "127.0.0.1" |}.

(** Every URL parses. *)
Definition NewRequest_any : string -> string -> option Request :=
  net_http_NewRequest (fun _ => true).

Definition refused : error :=
  url_Error (inner_error "connection refused")
    "dial tcp 127.0.0.1:8080: connection refused".

(** A target that refuses every connection, and one that answers on the
    second call. *)
Definition Do_refused (h : list Event) (req : Request) : Result :=
  DoErr refused.

Definition Do_second (h : list Event) (req : Request) : Result :=
  if (length (calls h) =? 1)%nat then DoOk 200 else DoErr refused.

(** One GET command without a protocol; its header line [X-Test] has no
    colon. *)
Definition cmd_get : HTTPProbeCmd :=
  {| Protocol := ""; Method := "GET"; Resource := "/";
     Headers := ["X-Test"; " Accept : text/html "];
     Username := ""; Password := "" |}.

(** A command whose method is not an HTTP token. *)
Definition cmd_bad_method : HTTPProbeCmd :=
  {| Protocol := "http"; Method := "GET /"; Resource := "/";
     Headers := ["Accept: text/html"];
     Username := ""; Password := "" |}.

Definition probe_8080 (cmd : HTTPProbeCmd) (retryCount retryWait : Z)
    : CustomProbe :=
  {| PrintState := true; PrintPrefix := "docker-slim[build]:";
     Ports := ["8080"]; Cmds := [cmd];
     RetryCount := retryCount; RetryWait := retryWait;
     TargetPorts := []; ContainerInspector := inspector_8080 |}.

Definition request_8080 (proto : string) : Request :=
  {| ReqMethod := "GET";
     ReqURL := String.append proto "://127.0.0.1:8080/";
     Header := []; BasicAuth := None |}.

(** A container with a port that is exposed but not published: its list
    of host bindings is empty. *)
Definition inspector_unpublished : Inspector :=
  {| NetworkSettingsPorts :=
       <["8080/tcp" := binding "8080"]> (<["9090/tcp" := []]> ∅);
     CmdPort := "65501/tcp";
     EvtPort := "65502/tcp";
     ExposedPorts := ["8080"; "9090"];
     DockerHostIP := "127.0.0.1" |}.

(** A container with three published ports, none of them exposed by the
    image, next to the published command port. *)
Definition inspector_three : Inspector :=
  {| NetworkSettingsPorts :=
       <["80/tcp" := binding "32769"]>
         (<["443/tcp" := binding "32770"]>
            (<["8080/tcp" := binding "32771"]>
               (<["65501/tcp" := binding "32768"]> ∅)));
     CmdPort := "65501/tcp";
     EvtPort := "65502/tcp";
     ExposedPorts := ["9000"];
     DockerHostIP := "127.0.0.1" |}.

(** Go may visit a map in the reverse of the order stdpp lists it in. *)
Definition reversed_entries (m : gmap string (list PortBinding))
    : list (string * list PortBinding) :=
  rev (map_to_list m).

Definition reversed_keys (s : gset string) : list string :=
  rev (elements s).

(** A target that answers every call. *)
Definition Do_ok (h : list Event) (req : Request) : Result := DoOk 200.

(** A command with a password and no user name. *)
Definition cmd_auth : HTTPProbeCmd :=
  {| Protocol := "https"; Method := "POST"; Resource := "/login";
     Headers := ["Accept: text/html"];
     Username := ""; Password := "secret" |}.

(** The probe of port 8080 with [PrintState] off, and a probe without
    commands. *)
Definition probe_quiet (cmd : HTTPProbeCmd) : CustomProbe :=
  {| PrintState := false; PrintPrefix := "";
     Ports := ["8080"]; Cmds := [cmd];
     RetryCount := 2; RetryWait := 0;
     TargetPorts := []; ContainerInspector := inspector_8080 |}.

Definition probe_no_cmds : CustomProbe :=
  {| PrintState := true; PrintPrefix := "docker-slim[build]:";
     Ports := ["8080"; "9090"]; Cmds := [];
     RetryCount := 0; RetryWait := 0;
     TargetPorts := []; ContainerInspector := inspector_8080 |}.

(** A target that closes every connection at once, and a client that
    fails before any connection is made. *)
Definition Do_eof (h : list Event) (req : Request) : Result :=
  DoErr (url_Error io_EOF "Get http://127.0.0.1:8080/: EOF").

Definition Do_plain (h : list Event) (req : Request) : Result :=
  DoErr (plain_error "http: nil Request.URL").




(** The state a first run leaves: the done channel is closed. *)
Definition after_first_run : RunState := closed fresh.

End Scenarios.

(** * Facts about the port resolution *)

Module ResolverFacts.
Import Resolver Scenarios.

Section Resolve.
Variable rangeEntries :
  gmap string (list PortBinding) -> list (string * list PortBinding).
Variable rangeKeys : gset string -> list string.

#[local] Abbreviation availablePorts := (availablePorts rangeEntries).
#[local] Abbreviation resolvePorts := (resolvePorts rangeKeys).
#[local] Abbreviation NewCustomProbe := (NewCustomProbe rangeEntries rangeKeys).

(** ** What the loops compute *)

Lemma targetPorts_loop_filter avail targetPorts ports :
  targetPorts_loop avail targetPorts ports
  = ports ++ filter (λ p, p ∈ avail) (pretty <$> targetPorts).
Proof.
  revert ports.
  induction targetPorts as [|pnum rest IH]; intros ports; simpl.
  - by rewrite app_nil_r.
  - rewrite filter_cons. case_bool_decide as Hin.
    + rewrite decide_True by done. rewrite IH, <- app_assoc. done.
    + rewrite decide_False by done. apply IH.
Qed.

Lemma exposedPorts_loop_take exposedPorts n ports avail :
  (n <= length exposedPorts)%nat ->
  exposedPorts_loop exposedPorts n ports avail
  = (ports ++ rev (take n exposedPorts),
     avail ∖ list_to_set (take n exposedPorts)).
Proof.
  revert ports avail.
  induction n as [|epi IH]; intros ports avail Hn; simpl.
  - rewrite app_nil_r. f_equal. set_solver.
  - destruct (lookup_lt_is_Some_2 exposedPorts epi) as [portInfo Hp];
      [lia|].
    rewrite Hp. rewrite IH by lia.
    rewrite (take_S_r _ _ _ Hp), rev_app_distr. simpl.
    rewrite <- app_assoc. simpl. f_equal.
    rewrite list_to_set_app_L. simpl.
    case_bool_decide; set_solver.
Qed.

Lemma exposedPorts_loop_all exposedPorts avail :
  exposedPorts_loop exposedPorts (length exposedPorts) [] avail
  = (rev exposedPorts, avail ∖ list_to_set exposedPorts).
Proof.
  rewrite exposedPorts_loop_take by lia. by rewrite firstn_all.
Qed.

(** Without a target filter every exposed port is appended, last
    declared first, whether it is available or not; the available ports
    that are not exposed follow. *)
Lemma resolvePorts_exposed avail exposedPorts :
  resolvePorts avail [] exposedPorts
  = rev exposedPorts ++ rangeKeys (avail ∖ list_to_set exposedPorts).
Proof.
  unfold resolvePorts. simpl.
  case_bool_decide as Hlen.
  - by rewrite exposedPorts_loop_all.
  - destruct exposedPorts; simpl in *; [|lia].
    do 2 f_equal. set_solver.
Qed.

(** The available-port set holds the host port of the first binding of
    every mapped port other than the command and event ports. *)
Lemma availablePorts_loop_elem inspector entries acc avail :
  availablePorts_loop inspector entries acc = Some avail ->
  forall p, p ∈ avail <->
    p ∈ acc \/
    exists k b bs, (k, b :: bs) ∈ entries /\ k <> CmdPort inspector
                   /\ k <> EvtPort inspector /\ HostPort b = p.
Proof.
  revert acc.
  induction entries as [|[k data] rest IH]; intros acc Hloop p; simpl in *.
  - inversion Hloop; subst. split; [by left|].
    intros [?|(?&?&?&Hin&_)]; [done|]. by apply elem_of_nil in Hin.
  - destruct (bool_decide (k = CmdPort inspector)
              || bool_decide (k = EvtPort inspector)) eqn:Hadm.
    + rewrite (IH _ Hloop). apply orb_true_iff in Hadm.
      split; (intros [?|(k'&b&bs&Hin&Hc&He&Hp)]; [by left|right]).
      * exists k', b, bs. rewrite elem_of_cons. naive_solver.
      * exists k', b, bs. apply elem_of_cons in Hin as [Heq|Hin]; [|done].
        inversion Heq; subst.
        destruct Hadm as [H%bool_decide_eq_true|H%bool_decide_eq_true];
          congruence.
    + apply orb_false_iff in Hadm as [Hc%bool_decide_eq_false
                                        He%bool_decide_eq_false].
      destruct data as [|b bs]; simpl in Hloop; [done|].
      rewrite (IH _ Hloop). rewrite elem_of_union, elem_of_singleton.
      split.
      * intros [[->|?]|(k'&b'&bs'&Hin&?&?&?)].
        -- right. exists k, b, bs. rewrite elem_of_cons. naive_solver.
        -- by left.
        -- right. exists k', b', bs'. rewrite elem_of_cons. naive_solver.
      * intros [?|(k'&b'&bs'&Hin&?&?&?)]; [by left; right|].
        apply elem_of_cons in Hin as [Heq|Hin].
        -- inversion Heq; subst. by left; left.
        -- right. exists k', b', bs'. done.
Qed.

Lemma availablePorts_elem inspector avail :
  entries_order_ok rangeEntries ->
  availablePorts inspector = Some avail ->
  forall p, p ∈ avail <->
    exists k b bs,
      NetworkSettingsPorts inspector !! k = Some (b :: bs)
      /\ k <> CmdPort inspector /\ k <> EvtPort inspector
      /\ HostPort b = p.
Proof.
  intros Hord Hav p. unfold availablePorts in Hav.
  rewrite (availablePorts_loop_elem _ _ _ _ Hav).
  split.
  - intros [Hin|(k&b&bs&Hin&?&?&?)]; [set_solver|].
    exists k, b, bs. rewrite (Hord _) in Hin.
    by apply elem_of_map_to_list in Hin.
  - intros (k&b&bs&Hlk&?&?&?). right. exists k, b, bs.
    rewrite (Hord _). by rewrite elem_of_map_to_list.
Qed.

Lemma NewCustomProbe_ports inspector cmds retryCount retryWait targetPorts
    printState printPrefix avail :
  availablePorts inspector = Some avail ->
  exists probe,
    NewCustomProbe inspector cmds retryCount retryWait targetPorts
      printState printPrefix = Some probe
    /\ Ports probe = resolvePorts avail targetPorts (ExposedPorts inspector).
Proof.
  intros Hav. unfold Resolver.NewCustomProbe. rewrite Hav. eauto.
Qed.

(** C2: with a non-empty list of target ports the probe's ports are the
    target ports, written in decimal, that are in the available-port set, in
    the order of the list; the others are dropped and the constructor
    returns the probe. *)
Theorem target_ports_filtered inspector cmds retryCount retryWait
    targetPorts printState printPrefix avail :
  availablePorts inspector = Some avail ->
  targetPorts <> [] ->
  exists probe,
    NewCustomProbe inspector cmds retryCount retryWait targetPorts
      printState printPrefix = Some probe
    /\ Ports probe = filter (λ p, p ∈ avail) (pretty <$> targetPorts).
Proof.
  intros Hav Hne.
  destruct (NewCustomProbe_ports inspector cmds retryCount retryWait
              targetPorts printState printPrefix avail Hav)
    as (probe & Hprobe & Hports).
  exists probe. split; [done|].
  rewrite Hports. unfold Resolver.resolvePorts.
  rewrite bool_decide_eq_true_2 by (destruct targetPorts; simpl; [done|lia]).
  by rewrite targetPorts_loop_filter.
Qed.

End Resolve.

Lemma target_ports_filtered_9090_8080 :
  exists probe,
    Resolver.NewCustomProbe map_to_list elements inspector_8080_9090
      [] 0 0 [9090%N; 8080%N] false "" = Some probe
    /\ Ports probe = ["9090"; "8080"].
Proof.
  destruct (target_ports_filtered map_to_list elements inspector_8080_9090
              [] 0 0 [9090%N; 8080%N] false "" {["8080"; "9090"]})
    as (probe & Hprobe & Hports).
  - vm_compute. reflexivity.
  - discriminate.
  - exists probe. split; [exact Hprobe|]. rewrite Hports.
    vm_compute. reflexivity.
Defined.

(** C1: without a target filter, on available ports {8080} and exposed ports
    8080, 9090 the constructor lists the unavailable port 9090 first: every
    exposed port is appended, whatever order the maps are visited in. *)
Theorem exposed_ports_unfiltered rangeEntries rangeKeys :
  entries_order_ok rangeEntries ->
  keys_order_ok rangeKeys ->
  Ports <$> Resolver.NewCustomProbe rangeEntries rangeKeys inspector_8080
              [] 0 0 [] false ""
  = Some ["9090"; "8080"].
Proof.
  intros Hent Hkeys.
  assert (Hav : Resolver.availablePorts rangeEntries inspector_8080
                = Some {["8080"]}).
  { unfold Resolver.availablePorts.
    pose proof (Hent (NetworkSettingsPorts inspector_8080)) as Hperm.
    replace (map_to_list (NetworkSettingsPorts inspector_8080))
      with [("8080/tcp", binding "8080")] in Hperm
      by (vm_compute; reflexivity).
    apply Permutation_singleton_r in Hperm. rewrite Hperm.
    vm_compute. reflexivity. }
  destruct (NewCustomProbe_ports rangeEntries rangeKeys inspector_8080
              [] 0 0 [] false "" _ Hav) as (probe & -> & Hports).
  simpl. f_equal. rewrite Hports, resolvePorts_exposed.
  replace (({["8080"]} : gset string) ∖ list_to_set (ExposedPorts inspector_8080))
    with (∅ : gset string) by (vm_compute; reflexivity).
  pose proof (Hkeys ∅) as Hperm. rewrite elements_empty in Hperm.
  apply Permutation_nil_r in Hperm. rewrite Hperm. reflexivity.
Qed.

Lemma exposed_ports_unfiltered_default_order :
  Ports <$> Resolver.NewCustomProbe map_to_list elements inspector_8080
              [] 0 0 [] false ""
  = Some ["9090"; "8080"].
Proof.
  apply exposed_ports_unfiltered; intros x; reflexivity.
Defined.

End ResolverFacts.

(** * Facts about the probe loop *)

Module RunnerFacts.
Import Runner.

(** ** Arithmetic of the counters *)

Lemma wrap_uint64_range z : uint64 (wrap_uint64 z).
Proof. unfold uint64, wrap_uint64. apply Z.mod_pos_bound. lia. Qed.

Lemma wrap_uint64_small z : uint64 z -> wrap_uint64 z = z.
Proof. unfold uint64, wrap_uint64. intros. by apply Z.mod_small. Qed.

Lemma wrap_uint64_add_l a b :
  wrap_uint64 (wrap_uint64 a + b) = wrap_uint64 (a + b).
Proof. unfold wrap_uint64. apply Zplus_mod_idemp_l. Qed.

Lemma wrap_int64_small z : - 2 ^ 63 <= z < 2 ^ 63 -> wrap_int64 z = z.
Proof. unfold wrap_int64. intros. rewrite Z.mod_small; lia. Qed.

Lemma wrap_int64_range z : - 2 ^ 63 <= wrap_int64 z < 2 ^ 63.
Proof.
  unfold wrap_int64.
  pose proof (Z.mod_pos_bound (z + 2 ^ 63) (2 ^ 64)). lia.
Qed.

Lemma wrap_int64_big z : 2 ^ 63 <= z -> wrap_int64 z <> z.
Proof. pose proof (wrap_int64_range z). lia. Qed.

(** A product of [int64] values does not depend on whether its factor was
    wrapped before. *)
Lemma wrap_int64_mul_l a b : wrap_int64 (wrap_int64 a * b) = wrap_int64 (a * b).
Proof.
  unfold wrap_int64. f_equal.
  pose proof (Z.div_mod (a + 2 ^ 63) (2 ^ 64)) as Ha.
  set (q := (a + 2 ^ 63) / 2 ^ 64) in *.
  set (m := (a + 2 ^ 63) mod 2 ^ 64) in *.
  replace (a * b + 2 ^ 63)
    with ((m - 2 ^ 63) * b + 2 ^ 63 + (q * b) * 2 ^ 64) by lia.
  by rewrite Z.mod_add by lia.
Qed.

(** ** Traces *)

Lemma calls_app tr1 tr2 : calls (tr1 ++ tr2) = calls tr1 ++ calls tr2.
Proof. apply omap_app. Qed.

Lemma sleeps_app tr1 tr2 : sleeps (tr1 ++ tr2) = sleeps tr1 ++ sleeps tr2.
Proof. apply omap_app. Qed.

Lemma closes_app tr1 tr2 : closes (tr1 ++ tr2) = closes tr1 ++ closes tr2.
Proof. apply omap_app. Qed.

Lemma calls_headerLogs headers : calls (headerLogs headers) = [].
Proof.
  unfold headerLogs. induction (filter _ headers); simpl; [done|].
  unfold calls in *. simpl. done.
Qed.

Lemma sleeps_headerLogs headers : sleeps (headerLogs headers) = [].
Proof.
  unfold headerLogs. induction (filter _ headers); simpl; [done|].
  unfold sleeps in *. simpl. done.
Qed.

Lemma closes_headerLogs headers : closes (headerLogs headers) = [].
Proof.
  unfold headerLogs. induction (filter _ headers); simpl; [done|].
  unfold closes in *. simpl. done.
Qed.

(** ** Trimming *)

Lemma spaceRunes_nonempty r : r ∈ spaceRunes -> (0 < length r)%nat.
Proof.
  revert r. apply Forall_forall. unfold spaceRunes. simpl.
  repeat (constructor; [simpl; lia|]). constructor.
Qed.

Lemma length_oriented flip r : length (oriented flip r) = length r.
Proof. destruct flip; simpl; [apply length_rev|done]. Qed.

Lemma spaceWidth_Some flip l w :
  spaceWidth flip l = S w ->
  exists r,
    r ∈ spaceRunes /\ length r = S w
    /\ l = oriented flip r ++ drop (S w) l.
Proof.
  unfold spaceWidth.
  destruct (list_find _ spaceRunes) as [[k r]|] eqn:Hfind; [|done].
  intros Hlen. apply list_find_Some in Hfind as (Hlook & [rest Hrest] & _).
  exists r. split; [by eapply list_elem_of_lookup_2|]. split; [done|].
  rewrite Hrest at 2. rewrite <- Hlen, <- (length_oriented flip r).
  by rewrite drop_app_length.
Qed.

Lemma spaceWidth_0 flip l :
  spaceWidth flip l = 0%nat ->
  forall r, r ∈ spaceRunes -> ~ oriented flip r `prefix_of` l.
Proof.
  unfold spaceWidth.
  destruct (list_find _ spaceRunes) as [[k r']|] eqn:Hfind.
  - intros Hlen. apply list_find_Some in Hfind as (Hlook & _).
    apply list_elem_of_lookup_2, spaceRunes_nonempty in Hlook. lia.
  - intros _ r Hr. apply list_find_None in Hfind.
    by apply (proj1 (Forall_forall _ _) Hfind).
Qed.

Lemma spaceWidth_prefix flip l l' :
  spaceWidth flip l = 0%nat -> l' `prefix_of` l ->
  spaceWidth flip l' = 0%nat.
Proof.
  intros Hl Hpre.
  destruct (spaceWidth flip l') as [|w] eqn:Hw; [done|exfalso].
  apply spaceWidth_Some in Hw as (r & Hr & _ & Hrest).
  apply (spaceWidth_0 flip l Hl r Hr).
  etrans; [|exact Hpre]. rewrite Hrest. by apply prefix_app_r.
Qed.

Lemma spaceWidth_nil flip : spaceWidth flip [] = 0%nat.
Proof.
  destruct (spaceWidth flip []) as [|w] eqn:Hw; [done|exfalso].
  apply spaceWidth_Some in Hw as (r & Hr & Hlen & Hrest).
  apply (f_equal length) in Hrest.
  rewrite length_app, length_oriented in Hrest. simpl in Hrest. lia.
Qed.

Lemma Spaces_app l1 l2 : Spaces l1 -> Spaces l2 -> Spaces (l1 ++ l2).
Proof.
  induction 1 as [|r l Hr _ IH]; intros H2; simpl; [done|].
  rewrite <- app_assoc. constructor; auto.
Qed.

Lemma Spaces_one r : r ∈ spaceRunes -> Spaces r.
Proof.
  intros Hr. rewrite <- (app_nil_r r). constructor; [done|constructor].
Qed.

(** What [trimFront] drops is a run of space runes, and with enough rounds
    what it leaves starts with none. *)
Lemma trimFront_spec flip fuel l :
  exists pre,
    l = pre ++ trimFront flip fuel l
    /\ Spaces (oriented flip pre)
    /\ ((length l <= fuel)%nat ->
        spaceWidth flip (trimFront flip fuel l) = 0%nat).
Proof.
  revert l. induction fuel as [|fuel IH]; intros l; simpl.
  - exists []. split; [done|]. split; [destruct flip; constructor|].
    intros Hlen. destruct l; [apply spaceWidth_nil|simpl in Hlen; lia].
  - destruct (spaceWidth flip l) as [|w] eqn:Hw.
    + exists []. split; [done|]. split; [destruct flip; constructor|done].
    + destruct (spaceWidth_Some flip l w Hw) as (r & Hr & Hlen & Hl).
      destruct (IH (drop (S w) l)) as (pre & Hpre & Hsp & Hend).
      exists (oriented flip r ++ pre). split; [|split].
      * rewrite <- app_assoc, <- Hpre. exact Hl.
      * destruct flip; simpl in *.
        -- rewrite rev_app_distr, rev_involutive.
           apply Spaces_app; [done|by apply Spaces_one].
        -- by constructor.
      * intros Hfuel. apply Hend. rewrite length_drop. lia.
Qed.

Lemma bytes_TrimLeft s :
  String.list_ascii_of_string (TrimLeft s)
  = trimFront false (length (String.list_ascii_of_string s))
      (String.list_ascii_of_string s).
Proof. unfold TrimLeft. apply String.list_ascii_of_string_of_list_ascii. Qed.

Lemma bytes_TrimRight s :
  String.list_ascii_of_string (TrimRight s)
  = rev (trimFront true (length (rev (String.list_ascii_of_string s)))
           (rev (String.list_ascii_of_string s))).
Proof. unfold TrimRight. apply String.list_ascii_of_string_of_list_ascii. Qed.

(** [TrimSpace] removes a run of space runes at each end and nothing else,
    and what it leaves neither starts nor ends with a space rune. *)
Lemma TrimSpace_spec s :
  exists l r,
    String.list_ascii_of_string s
    = l ++ String.list_ascii_of_string (TrimSpace s) ++ r
    /\ Spaces l /\ Spaces r
    /\ trimmed (TrimSpace s).
Proof.
  unfold TrimSpace, trimmed. rewrite bytes_TrimRight, bytes_TrimLeft.
  set (b := String.list_ascii_of_string s).
  destruct (trimFront_spec false (length b) b) as (l & Hb & Hl & Hstart).
  set (t1 := trimFront false (length b) b) in *.
  destruct (trimFront_spec true (length (rev t1)) (rev t1))
    as (r & Ht & Hr & Hend).
  set (t2 := trimFront true (length (rev t1)) (rev t1)) in *.
  assert (Ht1 : t1 = rev t2 ++ rev r).
  { rewrite <- rev_app_distr, <- Ht. by rewrite rev_involutive. }
  exists l, (rev r). split; [by rewrite <- Ht1|].
  split; [exact Hl|]. split; [exact Hr|]. split.
  - apply (spaceWidth_prefix false t1); [by apply Hstart|].
    rewrite Ht1. by apply prefix_app_r.
  - rewrite rev_involutive. by apply Hend.
Qed.

Lemma headerOfLine_trimmed hline name value :
  headerOfLine hline = Some (name, value) -> trimmed name /\ trimmed value.
Proof.
  unfold headerOfLine. destruct (indexByte ":" hline); [|done].
  intros [= <- <-].
  split; [destruct (TrimSpace_spec (String.substring 0 n hline))
            as (? & ? & _ & _ & _ & H)
         |destruct (TrimSpace_spec
                      (String.substring (S n) (String.length hline - S n)
                         hline))
            as (? & ? & _ & _ & _ & H)]; exact H.
Qed.

(** ** Header lines *)

Lemma SplitN2_cases hline :
  (exists h0 h1, SplitN2 hline ":" = [h0; h1]
                 /\ cut ":" hline = Some (h0, h1))
  \/ (SplitN2 hline ":" = [hline] /\ cut ":" hline = None).
Proof.
  unfold SplitN2. destruct (cut ":" hline) as [[h0 h1]|]; eauto.
Qed.








Lemma bump_add n m c : bump (n + m) c = bump m (bump n c).
Proof. unfold bump. rewrite Nat.add_comm. apply Nat.iter_add. Qed.

Lemma bump_wrap n c :
  (0 < n)%nat -> bump n c = wrap_uint64 (c + Z.of_nat n).
Proof.
  intros Hn. destruct n as [|n]; [lia|clear Hn].
  induction n as [|n IH].
  - reflexivity.
  - change (bump (S (S n)) c) with (wrap_uint64 (bump (S n) c + 1)).
    rewrite IH, wrap_uint64_add_l. f_equal. lia.
Qed.

Lemma bump_uint64 n c : uint64 c -> uint64 (bump n c).
Proof.
  intros Hc. destruct n as [|n]; [done|].
  rewrite bump_wrap by lia. apply wrap_uint64_range.
Qed.

Lemma bump_small n c :
  uint64 c -> c + Z.of_nat n < 2 ^ 64 -> bump n c = c + Z.of_nat n.
Proof.
  intros Hc Hn. destruct n as [|n]; [simpl; lia|].
  rewrite bump_wrap by lia. apply wrap_uint64_small.
  unfold uint64 in *. lia.
Qed.

Lemma failures_app evs1 evs2 :
  failures (evs1 ++ evs2) = failures evs1 ++ failures evs2.
Proof. unfold failures. by rewrite calls_app, filter_app. Qed.

Lemma successes_app evs1 evs2 :
  successes (evs1 ++ evs2) = successes evs1 ++ successes evs2.
Proof. unfold successes. by rewrite calls_app, filter_app. Qed.

Lemma calls_split evs :
  length (calls evs) = (length (successes evs) + length (failures evs))%nat.
Proof.
  unfold successes, failures, failed.
  induction (calls evs) as [|[req res] l IH]; [done|].
  rewrite !filter_cons. simpl.
  destruct res; simpl; repeat case_decide; simpl; try done; lia.
Qed.

Lemma ran_refl s : ran s s [].
Proof. unfold ran. simpl. by rewrite app_nil_r. Qed.

Lemma ran_trans s1 s2 s3 evs1 evs2 :
  ran s1 s2 evs1 -> ran s2 s3 evs2 -> ran s1 s3 (evs1 ++ evs2).
Proof.
  intros (Ht1 & Hd1 & Hc1 & He1 & Ho1) (Ht2 & Hd2 & Hc2 & He2 & Ho2).
  unfold ran.
  rewrite calls_app, failures_app, successes_app, !length_app, !bump_add.
  rewrite Ht2, Ht1, app_assoc. repeat split; congruence.
Qed.

Lemma ran_addEvents s evs :
  calls evs = [] -> ran s (addEvents s evs) evs.
Proof.
  intros Hc. unfold ran, failures, successes. rewrite Hc. done.
Qed.

(** ** One attempt *)

Lemma addEvents_app s evs1 evs2 :
  addEvents (addEvents s evs1) evs2 = addEvents s (evs1 ++ evs2).
Proof. unfold addEvents. simpl. by rewrite <- app_assoc. Qed.

Lemma addEvents_nil s : addEvents s [] = s.
Proof. destruct s. unfold addEvents. simpl. by rewrite app_nil_r. Qed.

Lemma emit_addEvents e s : emit e s = Ret tt (addEvents s [e]).
Proof. reflexivity. Qed.

Lemma headerLogs_cons hline rest :
  headerLogs (hline :: rest)
  = (if malformed hline then [malformedLog hline] else [])
    ++ headerLogs rest.
Proof.
  unfold headerLogs. rewrite filter_cons.
  destruct (malformed hline); simpl; done.
Qed.

Section Run.
Variable NewRequest : string -> string -> option Request.
Variable Do : list Event -> Request -> Result.

#[local] Abbreviation applyHeaders := (Runner.applyHeaders).
#[local] Abbreviation attempt := (Runner.attempt NewRequest Do).
#[local] Abbreviation attemptCall := (Runner.attemptCall NewRequest Do).
#[local] Abbreviation answered := (Runner.answered Do).
#[local] Abbreviation probeProtocol := (Runner.probeProtocol NewRequest Do).
#[local] Abbreviation probeCmd := (Runner.probeCmd NewRequest Do).
#[local] Abbreviation probePort := (Runner.probePort NewRequest Do).
#[local] Abbreviation Start := (Runner.Start NewRequest Do).

Lemma applyHeaders_Some headers r s :
  applyHeaders headers (Some r) s
  = Ret (Some (fold_left addHeader headers r))
        (addEvents s (headerLogs headers)).
Proof.
  revert r s. induction headers as [|hline rest IH]; intros r s.
  - simpl. unfold ret. by rewrite addEvents_nil.
  - rewrite headerLogs_cons. simpl. unfold addHeader, malformed.
    destruct (SplitN2_cases hline) as [(h0 & h1 & -> & _)|[-> _]].
    + by rewrite IH.
    + unfold bind. rewrite emit_addEvents, IH, addEvents_app. done.
Qed.

(** With a [nil] request the header loop panics at the first well-formed
    line; if there is none the request is still [nil] afterwards. *)
Lemma applyHeaders_None headers s :
  exists evs,
    calls evs = [] /\ closes evs = []
    /\ (applyHeaders headers None s = Panic (addEvents s evs)
        \/ applyHeaders headers None s = Ret None (addEvents s evs)).
Proof.
  revert s. induction headers as [|hline rest IH]; intros s.
  - exists []. rewrite addEvents_nil. simpl. auto.
  - simpl. destruct (SplitN2_cases hline) as [(h0 & h1 & -> & _)|[-> _]].
    + exists []. rewrite addEvents_nil. auto.
    + unfold bind. rewrite emit_addEvents.
      destruct (IH (addEvents s [malformedLog hline])) as (evs & Hc & Hcl & H).
      exists (malformedLog hline :: evs).
      rewrite addEvents_app in H. simpl in H.
      split; [|split]; [by unfold calls in *|by unfold closes in *|].
      exact H.
Qed.

Lemma attempt_Some p cmd addr i s r :
  NewRequest (Method cmd) addr = Some r ->
  let req := prepared cmd r in
  let res := Do (trace s ++ headerLogs (Headers cmd)) req in
  attempt p cmd addr i s
  = Ret (succeeded res)
        (attemptState s res (attemptEvents p cmd addr i req res)).
Proof.
  intros Hreq req res. unfold Runner.attempt. rewrite Hreq.
  unfold bind at 1. rewrite applyHeaders_Some.
  unfold bind at 1.
  assert (Hauth : applyBasicAuth cmd
                    (Some (fold_left addHeader (Headers cmd) r))
                    (addEvents s (headerLogs (Headers cmd)))
                  = Ret (Some req) (addEvents s (headerLogs (Headers cmd)))).
  { unfold applyBasicAuth, req, prepared, withBasicAuth.
    destruct (_ || _); reflexivity. }
  rewrite Hauth. clear Hauth.
  unfold httpClient_Do, bind, get, ret. simpl.
  fold res. unfold attemptEvents, attemptState, when.
  destruct res as [code|err] eqn:Hres, (PrintState p); simpl;
    try (destruct err as [[|?] ?|?]; simpl);
    unfold ret; f_equal; f_equal; by rewrite <- ?app_assoc.
Qed.

(** The attempt is its two parts one after the other. *)
Lemma attempt_split p cmd addr i s :
  attempt p cmd addr i s
  = (res <- attemptCall cmd addr ;; attemptRest p cmd addr i res) s.
Proof.
  unfold Runner.attempt, Runner.attemptCall, attemptRest, bind.
  destruct (applyHeaders _ _ s) as [req1 s1|s1]; [|done].
  destruct (applyBasicAuth cmd req1 s1) as [req2 s2|s2]; [|done].
  destruct (httpClient_Do Do req2 s2) as [res s3|s3]; [|done].
  reflexivity.
Qed.

(** The state right after [callCount++]: the request is sent and counted
    as a call, and neither as a success nor as a failure yet. *)
Lemma attemptCall_Some cmd addr s r :
  NewRequest (Method cmd) addr = Some r ->
  let req := prepared cmd r in
  let res := Do (trace s ++ headerLogs (Headers cmd)) req in
  attemptCall cmd addr s
  = Ret res {| callCount := wrap_uint64 (callCount s + 1);
               errCount := errCount s; okCount := okCount s;
               doneClosed := doneClosed s;
               trace := trace s ++ headerLogs (Headers cmd)
                        ++ [EvDo req res] |}.
Proof.
  intros Hreq req res. unfold Runner.attemptCall. rewrite Hreq.
  unfold bind at 1. rewrite applyHeaders_Some.
  unfold bind at 1.
  assert (Hauth : applyBasicAuth cmd
                    (Some (fold_left addHeader (Headers cmd) r))
                    (addEvents s (headerLogs (Headers cmd)))
                  = Ret (Some req) (addEvents s (headerLogs (Headers cmd)))).
  { unfold applyBasicAuth, req, prepared, withBasicAuth.
    destruct (_ || _); reflexivity. }
  rewrite Hauth. clear Hauth.
  unfold httpClient_Do, bind, get, ret. simpl.
  fold res. by rewrite <- app_assoc.
Qed.

(** When [http.NewRequest] fails the attempt dereferences the [nil]
    request: it panics before any request is sent or counted. *)
Lemma attempt_None p cmd addr i s :
  NewRequest (Method cmd) addr = None ->
  exists evs,
    attempt p cmd addr i s = Panic (addEvents s evs)
    /\ calls evs = [] /\ closes evs = [].
Proof.
  intros Hreq. unfold Runner.attempt. rewrite Hreq.
  destruct (applyHeaders_None (Headers cmd) s) as (evs & Hc & Hcl & [H|H]);
    exists evs; unfold bind at 1; rewrite H; [done|].
  split; [|done].
  unfold bind at 1. unfold applyBasicAuth.
  destruct (_ || _); reflexivity.
Qed.

Lemma calls_attemptEvents p cmd addr i req res :
  calls (attemptEvents p cmd addr i req res) = [(req, res)].
Proof.
  unfold attemptEvents. rewrite !calls_app, calls_headerLogs.
  destruct (PrintState p), res as [code|[[|?] ?|?]]; reflexivity.
Qed.

Lemma closes_attemptEvents p cmd addr i req res :
  closes (attemptEvents p cmd addr i req res) = [].
Proof.
  unfold attemptEvents. rewrite !closes_app, closes_headerLogs.
  destruct (PrintState p), res as [code|[[|?] ?|?]]; reflexivity.
Qed.

Lemma sleeps_attemptEvents p cmd addr i req res :
  sleeps (attemptEvents p cmd addr i req res)
  = match res with
    | DoOk _ => []
    | DoErr err => sleeps (backoffEvents p err)
    end.
Proof.
  unfold attemptEvents. rewrite !sleeps_app, sleeps_headerLogs.
  destruct (PrintState p), res as [code|[[|?] ?|?]]; reflexivity.
Qed.

Lemma ran_attemptState s req res evs :
  calls evs = [(req, res)] -> ran s (attemptState s res evs) evs.
Proof.
  intros Hc. unfold ran, failures, successes, failed. rewrite Hc.
  destruct res; simpl; done.
Qed.

(** ** The retry loop of one combination *)

Lemma for_retry_ran p cmd addr r :
  NewRequest (Method cmd) addr = Some r ->
  forall fuel i s,
  exists s' evs errs,
    for_retry (attempt p cmd addr) fuel i s = Ret tt s'
    /\ ran s s' evs
    /\ closes evs = []
    /\ Forall (fun c => exists h, c = (prepared cmd r, Do h (prepared cmd r)))
         (calls evs)
    /\ (calls evs = failure_of (prepared cmd r) <$> errs
        /\ length errs = fuel
        \/ exists code,
            calls evs = (failure_of (prepared cmd r) <$> errs)
                        ++ [(prepared cmd r, DoOk code)]
            /\ (length errs < fuel)%nat).
Proof.
  intros Hreq. induction fuel as [|fuel IH]; intros i s.
  - exists s, [], []. simpl. split; [done|]. split; [apply ran_refl|].
    split; [done|]. split; [constructor|]. by left.
  - simpl. unfold bind. rewrite (attempt_Some p cmd addr i s r Hreq).
    set (req := prepared cmd r).
    set (h := trace s ++ headerLogs (Headers cmd)).
    set (evs1 := attemptEvents p cmd addr i req (Do h req)).
    assert (Hc1 : calls evs1 = [(req, Do h req)])
      by apply calls_attemptEvents.
    assert (Hcl1 : closes evs1 = []) by apply closes_attemptEvents.
    assert (Hran1 : ran s (attemptState s (Do h req) evs1) evs1)
      by (eapply ran_attemptState; exact Hc1).
    destruct (Do h req) as [code|e] eqn:Hdo; simpl.
    + exists (attemptState s (DoOk code) evs1), evs1, [].
      split; [done|]. split; [done|].
      split; [done|].
      rewrite Hc1. split.
      * constructor; [|constructor]. exists h. by rewrite Hdo.
      * right. exists code. simpl. split; [done|lia].
    + destruct (IH (i + 1) (attemptState s (DoErr e) evs1))
        as (s' & evs2 & errs & Hrun & Hran2 & Hcl & Hall & Hshape).
      exists s', (evs1 ++ evs2), (e :: errs).
      split; [done|]. split; [by eapply ran_trans|].
      split; [by rewrite closes_app, Hcl, Hcl1|].
      rewrite calls_app, Hc1. simpl. split.
      * constructor; [|done]. exists h. by rewrite Hdo.
      * destruct Hshape as [[-> <-]|(code & -> & Hlt)].
        -- by left.
        -- right. exists code. simpl. split; [done|lia].
Qed.

(** ** Calls and the answers of [Do] *)

Lemma answered_app h evs1 evs2 :
  answered h (evs1 ++ evs2)
  <-> answered h evs1 /\ answered (h ++ evs1) evs2.
Proof.
  revert h. induction evs1 as [|e evs1 IH]; intros h; simpl.
  - rewrite app_nil_r. tauto.
  - rewrite IH, <- app_assoc. simpl. tauto.
Qed.

Lemma answered_no_calls h evs : calls evs = [] -> answered h evs.
Proof.
  revert h. induction evs as [|e evs IH]; intros h Hc; simpl; [done|].
  destruct e; try discriminate Hc; (split; [done|]); by apply IH.
Qed.

Lemma answered_split h pre req res post :
  answered h (pre ++ EvDo req res :: post) -> res = Do (h ++ pre) req.
Proof. rewrite answered_app. simpl. tauto. Qed.

(** The call in position [length cs1] is [Do]'s answer on a history that
    holds [length cs1] calls more than the history at the start. *)
Lemma answered_nth h evs cs1 req res cs2 :
  answered h evs ->
  calls evs = cs1 ++ (req, res) :: cs2 ->
  exists h',
    res = Do h' req
    /\ length (calls h') = (length (calls h) + length cs1)%nat.
Proof.
  revert h cs1. induction evs as [|e evs IH]; intros h cs1 Hans Hc.
  - by destruct cs1.
  - simpl in Hans. destruct Hans as [He Hans].
    assert (Hquiet : calls [e] = [] ->
              exists h', res = Do h' req
                /\ length (calls h') = (length (calls h) + length cs1)%nat).
    { intros Hq. destruct (IH (h ++ [e]) cs1 Hans) as (h' & Hres & Hlen).
      - change (e :: evs) with ([e] ++ evs) in Hc.
        by rewrite calls_app, Hq in Hc.
      - exists h'. split; [done|]. by rewrite Hlen, calls_app, Hq, app_nil_r. }
    destruct e as [d|l|msg|req' res'|]; try (by apply Hquiet).
    change (calls (EvDo req' res' :: evs))
      with ((req', res') :: calls evs) in Hc.
    destruct cs1 as [|c cs1]; simpl in Hc.
    + injection Hc as -> -> _. exists h. split; [done|simpl; lia].
    + injection Hc as _ Hc.
      destruct (IH (h ++ [EvDo req' res']) cs1 Hans Hc) as (h' & Hres & Hlen).
      exists h'. split; [done|].
      rewrite Hlen, calls_app, length_app. simpl. lia.
Qed.

Lemma answered_attemptEvents p cmd addr i s req :
  answered (trace s)
    (attemptEvents p cmd addr i req
       (Do (trace s ++ headerLogs (Headers cmd)) req)).
Proof.
  unfold attemptEvents.
  apply answered_app. split; [apply answered_no_calls, calls_headerLogs|].
  apply answered_app. split; [simpl; done|].
  apply answered_no_calls. rewrite calls_app.
  destruct (PrintState p), (Do _ req) as [code|[[|?] ?|?]]; reflexivity.
Qed.

(** The retry loop of a combination returns, and each of its calls has the
    result [Do] gave at that point. *)
Lemma for_retry_answered p cmd addr r :
  NewRequest (Method cmd) addr = Some r ->
  forall fuel i s,
  exists s' evs,
    for_retry (attempt p cmd addr) fuel i s = Ret tt s'
    /\ trace s' = trace s ++ evs
    /\ answered (trace s) evs.
Proof.
  intros Hreq. induction fuel as [|fuel IH]; intros i s.
  - exists s, []. simpl. by rewrite app_nil_r.
  - simpl. unfold bind. rewrite (attempt_Some p cmd addr i s r Hreq).
    set (req := prepared cmd r).
    pose proof (answered_attemptEvents p cmd addr i s req) as Hans1.
    set (res := Do (trace s ++ headerLogs (Headers cmd)) req) in *.
    set (evs1 := attemptEvents p cmd addr i req res) in *.
    destruct res as [code|e] eqn:Hres; simpl.
    + exists (attemptState s (DoOk code) evs1), evs1. done.
    + destruct (IH (i + 1) (attemptState s (DoErr e) evs1))
        as (s' & evs2 & Hrun & Htr & Hans2).
      exists s', (evs1 ++ evs2). split; [done|].
      simpl in Htr, Hans2.
      split; [by rewrite Htr, <- app_assoc|].
      apply answered_app. done.
Qed.

(** Where the target fails the first [k] calls made from a state on and
    answers the next one, the calls of a combination with more than [k]
    tries are [k] failures and the success. *)
Lemma retried_until_success req h evs (errs : list error) (k : nat) :
  answered h evs ->
  (forall h', (length (calls h) <= length (calls h')
               < length (calls h) + k)%nat ->
              succeeded (Do h' req) = false) ->
  (forall h', length (calls h') = (length (calls h) + k)%nat ->
              succeeded (Do h' req) = true) ->
  (exists code,
     calls evs = (failure_of req <$> errs) ++ [(req, DoOk code)])
  \/ calls evs = failure_of req <$> errs /\ (k < length errs)%nat ->
  length errs = k
  /\ exists code, calls evs = (failure_of req <$> errs) ++ [(req, DoOk code)].
Proof.
  intros Hans Hfail Hok Hshape.
  assert (Hlate : (k < length errs)%nat -> forall cs,
            calls evs = (failure_of req <$> errs) ++ cs -> False).
  { intros Hk cs Hcalls.
    destruct (lookup_lt_is_Some_2 errs k Hk) as [e He].
    rewrite <- (take_drop_middle errs k e He) in Hcalls.
    rewrite fmap_app, fmap_cons, <- app_assoc in Hcalls. simpl in Hcalls.
    destruct (answered_nth _ _ _ _ _ _ Hans Hcalls) as (h' & Hres & Hlen).
    rewrite length_fmap, length_take in Hlen.
    specialize (Hok h'). rewrite <- Hres in Hok.
    discriminate Hok. lia. }
  destruct Hshape as [(code & Hcalls)|[Hcalls Hk]].
  - split; [|by exists code].
    destruct (decide (length errs < k)%nat) as [Hearly|Hnot].
    + destruct (answered_nth _ _ _ _ _ _ Hans Hcalls) as (h' & Hres & Hlen).
      rewrite length_fmap in Hlen.
      specialize (Hfail h'). rewrite <- Hres in Hfail.
      discriminate Hfail. lia.
    + destruct (decide (k < length errs)%nat) as [Hk|Hnot']; [|lia].
      destruct (Hlate Hk _ Hcalls).
  - rewrite <- (app_nil_r (_ <$> _)) in Hcalls. destruct (Hlate Hk _ Hcalls).
Qed.

Lemma filter_failure_of_failed req (errs : list error) :
  filter (fun c => failed c.2 = true) (failure_of req <$> errs)
  = failure_of req <$> errs.
Proof.
  induction errs as [|e errs IH]; [done|].
  rewrite fmap_cons, filter_cons_True by done. by rewrite IH.
Qed.

Lemma filter_failure_of_succeeded req (errs : list error) :
  filter (fun c => succeeded c.2 = true) (failure_of req <$> errs) = [].
Proof.
  induction errs as [|e errs IH]; [done|].
  rewrite fmap_cons, filter_cons_False by done. exact IH.
Qed.

Lemma maxRetryCount_pos p : 0 < maxRetryCount p.
Proof.
  unfold maxRetryCount, probeRetryCount.
  destruct (0 <? RetryCount p) eqn:H; [|lia]. by apply Z.ltb_lt.
Qed.

(** C3: a combination whose every attempt fails is tried exactly
    [maxRetryCount] times, the configured retry count when positive and 5
    otherwise; each of these attempts is counted once as a call and once
    as a failure, none as a success. *)
Theorem failing_combination_exhausts_retries p port cmd proto s r :
  NewRequest (Method cmd) (target p port cmd proto) = Some r ->
  (forall h, succeeded (Do h (prepared cmd r)) = false) ->
  maxRetryCount p = (if 0 <? RetryCount p then RetryCount p else 5)
  /\ exists s' evs,
      probeProtocol p port cmd proto s = Ret tt s'
      /\ trace s' = trace s ++ evs
      /\ Z.of_nat (length (calls evs)) = maxRetryCount p
      /\ Forall (fun c => c.1 = prepared cmd r /\ succeeded c.2 = false)
           (calls evs)
      /\ callCount s' = wrap_uint64 (callCount s + maxRetryCount p)
      /\ errCount s' = wrap_uint64 (errCount s + maxRetryCount p)
      /\ okCount s' = okCount s.
Proof.
  intros Hreq Hfail. split; [reflexivity|].
  pose proof (maxRetryCount_pos p) as Hpos.
  destruct (for_retry_ran p cmd _ r Hreq (Z.to_nat (maxRetryCount p)) 0 s)
    as (s' & evs & errs & Hrun & Hran & _ & Hall & Hshape).
  exists s', evs. split; [exact Hrun|].
  destruct Hran as (Htr & _ & Hc & He & Ho). split; [exact Htr|].
  destruct Hshape as [[Hcalls Hlen]|(code & Hcalls & _)].
  - unfold failures in He. unfold successes in Ho.
    rewrite Hcalls in *.
    rewrite filter_failure_of_failed in He.
    rewrite filter_failure_of_succeeded in Ho.
    rewrite length_fmap, Hlen in *.
    rewrite bump_wrap in Hc, He by lia. rewrite Z2Nat.id in * by lia.
    repeat split; try done.
    apply Forall_fmap, Forall_true. done.
  - exfalso. rewrite Hcalls in Hall.
    apply Forall_app in Hall as [_ Hlast].
    apply Forall_singleton in Hlast as (h & Heq).
    injection Heq as Heq. specialize (Hfail h). rewrite <- Heq in Hfail.
    done.
Qed.

(** C4: the retry loop of a combination returns, so the runner goes on
    with what comes next, and each of its calls has the result [Do] gave at
    that point.  Either a call returned without an error: it is the last
    call of the combination, the calls before it failed, and the success
    counter moved by exactly one; or all [maxRetryCount] calls failed and
    the success counter did not move.  In particular, where the target
    fails the first [k] calls and answers the next one, with
    [k < maxRetryCount], the combination makes exactly [k + 1] calls, the
    last of them the success, counted once. *)
Theorem successful_combination_stops p port cmd proto s r :
  NewRequest (Method cmd) (target p port cmd proto) = Some r ->
  exists s' evs errs,
    probeProtocol p port cmd proto s = Ret tt s'
    /\ trace s' = trace s ++ evs
    /\ (forall pre req res post,
          evs = pre ++ EvDo req res :: post ->
          res = Do (trace s ++ pre) req)
    /\ callCount s' = bump (length (calls evs)) (callCount s)
    /\ errCount s' = bump (length errs) (errCount s)
    /\ ((exists code,
           calls evs = (failure_of (prepared cmd r) <$> errs)
                       ++ [(prepared cmd r, DoOk code)]
           /\ Z.of_nat (length errs) < maxRetryCount p
           /\ okCount s' = wrap_uint64 (okCount s + 1))
        \/ (calls evs = failure_of (prepared cmd r) <$> errs
            /\ Z.of_nat (length errs) = maxRetryCount p
            /\ okCount s' = okCount s))
    /\ forall k : nat,
         Z.of_nat k < maxRetryCount p ->
         (forall h, (length (calls (trace s)) <= length (calls h)
                     < length (calls (trace s)) + k)%nat ->
                    succeeded (Do h (prepared cmd r)) = false) ->
         (forall h, length (calls h) = (length (calls (trace s)) + k)%nat ->
                    succeeded (Do h (prepared cmd r)) = true) ->
         exists code,
           calls evs = (failure_of (prepared cmd r) <$> errs)
                       ++ [(prepared cmd r, DoOk code)]
           /\ length errs = k
           /\ okCount s' = wrap_uint64 (okCount s + 1).
Proof.
  intros Hreq.
  pose proof (maxRetryCount_pos p) as Hpos.
  destruct (for_retry_ran p cmd _ r Hreq (Z.to_nat (maxRetryCount p)) 0 s)
    as (s' & evs & errs & Hrun & Hran & _ & _ & Hshape).
  destruct (for_retry_answered p cmd _ r Hreq (Z.to_nat (maxRetryCount p)) 0 s)
    as (s'' & evs' & Hrun' & Htr' & Hans).
  destruct Hran as (Htr & _ & Hc & He & Ho).
  assert (s'' = s') as -> by congruence.
  assert (evs' = evs) as ->
    by (apply (app_inv_head (trace s)); congruence).
  clear Hrun' Htr'.
  assert (Hok : forall code,
    calls evs = (failure_of (prepared cmd r) <$> errs)
                ++ [(prepared cmd r, DoOk code)] ->
    okCount s' = wrap_uint64 (okCount s + 1)).
  { intros code Hcalls. unfold successes in Ho. rewrite Hcalls in Ho.
    by rewrite filter_app, filter_failure_of_succeeded in Ho. }
  exists s', evs, errs. split; [exact Hrun|]. split; [exact Htr|].
  split; [intros pre req res post ->; by eapply answered_split|].
  split; [exact Hc|]. split; [|split].
  - unfold failures in He.
    destruct Hshape as [[Hcalls _]|(code & Hcalls & _)]; rewrite Hcalls in He.
    + by rewrite filter_failure_of_failed, length_fmap in He.
    + rewrite filter_app, filter_failure_of_failed in He.
      rewrite length_app, length_fmap in He. simpl in He.
      by rewrite Nat.add_0_r in He.
  - destruct Hshape as [[Hcalls Hlen]|(code & Hcalls & Hlt)].
    + right. split; [exact Hcalls|]. split; [lia|].
      unfold successes in Ho. rewrite Hcalls in Ho.
      by rewrite filter_failure_of_succeeded in Ho.
    + left. exists code. split; [exact Hcalls|]. split; [lia|].
      by eapply Hok.
  - intros k Hk Hfail Hsucc.
    destruct (retried_until_success (prepared cmd r) (trace s) evs errs k
                Hans Hfail Hsucc) as (Hlen & code & Hcalls).
    { destruct Hshape as [[Hcalls Hlen]|(code & Hcalls & _)].
      - right. split; [exact Hcalls|lia].
      - left. by exists code. }
    exists code. split; [exact Hcalls|]. split; [exact Hlen|].
    by eapply Hok.
Qed.

(** C5: after a failed attempt the runner sleeps for a time fixed by the
    kind of the error alone, whatever the attempt number [i]: 16 s for a
    URL error caused by EOF, 8 s for any other URL error, 4 s for any other
    error, or [2w], [w] and [w/2] seconds when the retry wait [w] is
    positive and that wait in nanoseconds fits the [int64] of a
    [time.Duration]: [w <= 4611686018] for [2w], [w <= 9223372036] for
    [w], [w <= 18446744073] for [w/2].  Beyond its bound a bucket sleeps
    for the [int64] wrap-around of the nominal number of nanoseconds, which
    differs from it. *)
Theorem backoff_by_bucket p cmd addr i s r :
  NewRequest (Method cmd) addr = Some r ->
  exists res s' evs,
    attempt p cmd addr i s = Ret (succeeded res) s'
    /\ trace s' = trace s ++ evs
    /\ calls evs = [(prepared cmd r, res)]
    /\ sleeps evs
       = match res with
         | DoOk _ => []
         | DoErr (url_Error io_EOF _) =>
             [if 0 <? RetryWait p
              then if RetryWait p <=? 4611686018
                   then 2 * RetryWait p * 1000000000
                   else wrap_int64 (2 * RetryWait p * 1000000000)
              else 16 * 1000000000]
         | DoErr (url_Error (inner_error _) _) =>
             [if 0 <? RetryWait p
              then if RetryWait p <=? 9223372036
                   then RetryWait p * 1000000000
                   else wrap_int64 (RetryWait p * 1000000000)
              else 8 * 1000000000]
         | DoErr (plain_error _) =>
             [if 0 <? RetryWait p
              then if RetryWait p <=? 18446744073
                   then RetryWait p / 2 * 1000000000
                   else wrap_int64 (RetryWait p / 2 * 1000000000)
              else 4 * 1000000000]
         end
    /\ (4611686018 < RetryWait p ->
        wrap_int64 (2 * RetryWait p * 1000000000)
        <> 2 * RetryWait p * 1000000000)
    /\ (9223372036 < RetryWait p ->
        wrap_int64 (RetryWait p * 1000000000)
        <> RetryWait p * 1000000000)
    /\ (18446744073 < RetryWait p ->
        wrap_int64 (RetryWait p / 2 * 1000000000)
        <> RetryWait p / 2 * 1000000000).
Proof.
  intros Hreq.
  set (req := prepared cmd r).
  set (res := Do (trace s ++ headerLogs (Headers cmd)) req).
  exists res, (attemptState s res (attemptEvents p cmd addr i req res)),
    (attemptEvents p cmd addr i req res).
  split; [by apply attempt_Some|]. split; [reflexivity|].
  split; [apply calls_attemptEvents|].
  assert (Hhalf : 18446744073 < RetryWait p -> 9223372037 <= RetryWait p / 2)
    by (intros H; apply Z.div_le_lower_bound; lia).
  split; [|repeat split; intros Hw; apply wrap_int64_big; lia].
  rewrite sleeps_attemptEvents.
  destruct res as [code|[[|msg'] msg|msg]]; [done|..]; simpl;
    unfold seconds, notReadyErrorWait, webErrorWait, otherErrorWait,
      time_Second;
    destruct (0 <? RetryWait p) eqn:Hpos;
    try apply Z.ltb_lt in Hpos; try reflexivity.
  - rewrite wrap_int64_mul_l.
    replace (RetryWait p * 2 * 1000000000)
      with (2 * RetryWait p * 1000000000) by lia.
    destruct (RetryWait p <=? 4611686018) eqn:Hw; [|done].
    apply Z.leb_le in Hw. rewrite wrap_int64_small; [done|lia].
  - destruct (RetryWait p <=? 9223372036) eqn:Hw; [|done].
    apply Z.leb_le in Hw. rewrite wrap_int64_small; [done|lia].
  - rewrite Z.quot_div_nonneg by lia.
    destruct (RetryWait p <=? 18446744073) eqn:Hw; [|done].
    apply Z.leb_le in Hw. rewrite wrap_int64_small; [done|].
    assert (0 <= RetryWait p / 2 < 9223372037); [|lia].
    split; [apply Z.div_pos; lia|].
    apply Z.div_lt_upper_bound; lia.
Qed.

(** C6: a command without a protocol is probed over http and then over
    https, a command with a protocol over that protocol alone; with a retry
    count of 2 and every call failing, a command without a protocol makes
    exactly four calls on a port, two to the http target followed by two to
    the https target. *)
Theorem empty_protocol_two_series p port cmd s :
  (Protocol cmd = "" ->
   protocols cmd = ["http"; "https"]
   /\ probeCmd p port cmd s
      = (probeProtocol p port cmd "http" ;;
         probeProtocol p port cmd "https" ;; ret tt) s)
  /\ (Protocol cmd <> "" ->
      protocols cmd = [Protocol cmd]
      /\ probeCmd p port cmd s
         = (probeProtocol p port cmd (Protocol cmd) ;; ret tt) s)
  /\ (forall r1 r2,
        Protocol cmd = "" ->
        RetryCount p = 2 ->
        NewRequest (Method cmd) (target p port cmd "http") = Some r1 ->
        NewRequest (Method cmd) (target p port cmd "https") = Some r2 ->
        (forall h req, succeeded (Do h req) = false) ->
        exists s' evs e1 e2 e3 e4,
          probeCmd p port cmd s = Ret tt s'
          /\ trace s' = trace s ++ evs
          /\ calls evs = [(prepared cmd r1, DoErr e1);
                          (prepared cmd r1, DoErr e2);
                          (prepared cmd r2, DoErr e3);
                          (prepared cmd r2, DoErr e4)]).
Proof.
  split; [|split].
  - intros Hproto. unfold Runner.probeCmd, protocols.
    rewrite bool_decide_eq_true_2 by done. done.
  - intros Hproto. unfold Runner.probeCmd, protocols.
    rewrite bool_decide_eq_false_2 by done. done.
  - intros r1 r2 Hproto Hcount Hreq1 Hreq2 Hfail.
    assert (Hfuel : Z.to_nat (maxRetryCount p) = 2%nat)
      by (unfold maxRetryCount; rewrite Hcount; reflexivity).
    unfold Runner.probeCmd, protocols.
    rewrite bool_decide_eq_true_2 by done. simpl.
    unfold Runner.probeProtocol. rewrite Hfuel.
    destruct (for_retry_ran p cmd _ r1 Hreq1 2 0 s)
      as (s1 & evs1 & errs1 & Hrun1 & (Htr1 & _) & _ & Hall1 & Hshape1).
    destruct (for_retry_ran p cmd _ r2 Hreq2 2 0 s1)
      as (s2 & evs2 & errs2 & Hrun2 & (Htr2 & _) & _ & Hall2 & Hshape2).
    assert (Hexh : forall req evs (errs : list error),
      Forall (fun c => exists h, c = (req, Do h req)) (calls evs) ->
      (calls evs = failure_of req <$> errs /\ length errs = 2%nat
       \/ exists code, calls evs = (failure_of req <$> errs)
                                   ++ [(req, DoOk code)]
                       /\ (length errs < 2)%nat) ->
      exists e e', calls evs = [(req, DoErr e); (req, DoErr e')]).
    { intros req evs errs Hall [[Hcalls Hlen]|(code & Hcalls & _)].
      - destruct errs as [|e [|e' [|]]]; simpl in Hlen; try lia.
        exists e, e'. exact Hcalls.
      - exfalso. rewrite Hcalls in Hall.
        apply Forall_app in Hall as [_ Hlast].
        apply Forall_singleton in Hlast as (h & Heq).
        injection Heq as Heq. specialize (Hfail h req).
        rewrite <- Heq in Hfail. done. }
    destruct (Hexh _ _ _ Hall1 Hshape1) as (e1 & e2 & Hc1).
    destruct (Hexh _ _ _ Hall2 Hshape2) as (e3 & e4 & Hc2).
    exists s2, (evs1 ++ evs2), e1, e2, e3, e4.
    unfold bind. rewrite Hrun1, Hrun2. split; [done|].
    split; [by rewrite Htr2, Htr1, app_assoc|].
    by rewrite calls_app, Hc1, Hc2.
Qed.


(** C9: the error of [http.NewRequest] is not looked at; when the request
    it returns is [nil] the attempt dereferences it and panics, before any
    request is sent and before any counter moves. *)
Theorem nil_request_panics p cmd addr i s :
  NewRequest (Method cmd) addr = None ->
  exists s',
    attempt p cmd addr i s = Panic s'
    /\ calls (trace s') = calls (trace s)
    /\ callCount s' = callCount s
    /\ errCount s' = errCount s
    /\ okCount s' = okCount s.
Proof.
  intros Hreq.
  destruct (attempt_None p cmd addr i s Hreq) as (evs & Hrun & Hc & _).
  exists (addEvents s evs). split; [exact Hrun|].
  simpl. rewrite calls_app, Hc, app_nil_r. done.
Qed.

(** ** The run as a sequence of steps *)

#[local] Abbreviation step := (Runner.step NewRequest Do).
#[local] Abbreviation walks := (Runner.walks NewRequest Do).

Lemma walks_ret {A} p (a : A) : walks p (ret a).
Proof. intros s. apply rtc_refl. Qed.

Lemma walks_get {A} p (f : RunState -> A) : walks p (get f).
Proof. intros s. apply rtc_refl. Qed.

Lemma walks_emit p e : quiet e -> walks p (emit e).
Proof. intros He s. apply rtc_once. by constructor. Qed.

Lemma walks_attempt p cmd addr i : walks p (attempt p cmd addr i).
Proof. intros s. apply rtc_once. constructor. Qed.

Lemma walks_bind {A B} p (c : M A) (k : A -> M B) :
  walks p c -> (forall a, walks p (k a)) -> walks p (bind c k).
Proof.
  intros Hc Hk s. unfold bind. specialize (Hc s).
  destruct (c s) as [a s1|s1]; simpl in *; [|done].
  etrans; [exact Hc|apply Hk].
Qed.

Lemma walks_when p b c : walks p c -> walks p (when b c).
Proof. intros Hc. destruct b; simpl; [done|apply walks_ret]. Qed.

Lemma walks_for_range {A} p (l : list A) body :
  (forall x, walks p (body x)) -> walks p (for_range l body).
Proof.
  intros Hbody. induction l as [|x l IH]; simpl.
  - apply walks_ret.
  - apply walks_bind; [apply Hbody|done].
Qed.

Lemma walks_for_retry p body fuel i :
  (forall j, walks p (body j)) -> walks p (for_retry body fuel i).
Proof.
  intros Hbody. revert i. induction fuel as [|fuel IH]; intros i; simpl.
  - apply walks_ret.
  - apply walks_bind; [apply Hbody|].
    intros [|]; [apply walks_ret|apply IH].
Qed.

Lemma walks_probeProtocol p port cmd proto :
  walks p (probeProtocol p port cmd proto).
Proof. apply walks_for_retry. intros j. apply walks_attempt. Qed.

Lemma walks_probeCmd p port cmd : walks p (probeCmd p port cmd).
Proof. apply walks_for_range. intros proto. apply walks_probeProtocol. Qed.

Lemma walks_probePort p port : walks p (probePort p port).
Proof. apply walks_for_range. intros cmd. apply walks_probeCmd. Qed.

Lemma walks_printSummary p : walks p (printSummary p).
Proof.
  unfold printSummary.
  repeat (apply walks_bind; [apply walks_get|intros ?]).
  apply walks_bind; [by apply walks_emit|intros _].
  by apply walks_emit.
Qed.

Lemma steps_addEvents p s evs :
  Forall quiet evs -> rtc (step p) s (addEvents s evs).
Proof.
  intros Hq. revert s. induction Hq as [|e evs He _ IH]; intros s.
  - rewrite addEvents_nil. apply rtc_refl.
  - change (e :: evs) with ([e] ++ evs). rewrite <- addEvents_app.
    eapply rtc_l; [|apply IH].
    apply (step_event NewRequest Do p s e He).
Qed.

(** Every step appends to the trace and moves the counters with the calls
    it makes; no step closes the channel. *)
Lemma step_ran p s s' :
  step p s s' -> exists evs, ran s s' evs /\ closes evs = [].
Proof.
  intros [s0 e He|s0 cmd addr i].
  - exists [e]. simpl. destruct e; try done; split; try done;
      by apply ran_addEvents.
  - destruct (NewRequest (Method cmd) addr) as [r|] eqn:Hreq.
    + rewrite (attempt_Some p cmd addr i s0 r Hreq). simpl.
      eexists. split; [eapply ran_attemptState|];
        [apply calls_attemptEvents|apply closes_attemptEvents].
    + destruct (attempt_None p cmd addr i s0 Hreq) as (evs & -> & Hc & Hcl).
      exists evs. split; [by apply ran_addEvents|done].
Qed.

Lemma steps_ran p s s' :
  rtc (step p) s s' -> exists evs, ran s s' evs /\ closes evs = [].
Proof.
  induction 1 as [s|s1 s2 s3 Hstep _ (evs2 & Hran2 & Hcl2)].
  - exists []. split; [apply ran_refl|done].
  - destruct (step_ran p s1 s2 Hstep) as (evs1 & Hran1 & Hcl1).
    exists (evs1 ++ evs2). split; [by eapply ran_trans|].
    by rewrite closes_app, Hcl1, Hcl2.
Qed.

Lemma step_answered p s s' :
  step p s s' ->
  exists evs, ran s s' evs /\ closes evs = [] /\ answered (trace s) evs.
Proof.
  intros [s0 e He|s0 cmd addr i].
  - exists [e]. simpl. destruct e; try done; repeat split; try done;
      by apply ran_addEvents.
  - destruct (NewRequest (Method cmd) addr) as [r|] eqn:Hreq.
    + rewrite (attempt_Some p cmd addr i s0 r Hreq). simpl.
      eexists. split; [eapply ran_attemptState; apply calls_attemptEvents|].
      split; [apply closes_attemptEvents|apply answered_attemptEvents].
    + destruct (attempt_None p cmd addr i s0 Hreq) as (evs & -> & Hc & Hcl).
      exists evs. split; [by apply ran_addEvents|].
      split; [done|by apply answered_no_calls].
Qed.

(** Along the steps of a run the counters follow the calls of the trace,
    and every call of the trace has the result [Do] gave at that point. *)
Lemma steps_answered p s s' :
  rtc (step p) s s' ->
  exists evs, ran s s' evs /\ closes evs = [] /\ answered (trace s) evs.
Proof.
  induction 1 as [s|s1 s2 s3 Hstep _ (evs2 & Hran2 & Hcl2 & Hans2)].
  - exists []. split; [apply ran_refl|done].
  - destruct (step_answered p s1 s2 Hstep) as (evs1 & Hran1 & Hcl1 & Hans1).
    exists (evs1 ++ evs2). split; [by eapply ran_trans|].
    split; [by rewrite closes_app, Hcl1, Hcl2|].
    apply answered_app. split; [done|].
    destruct Hran1 as (<- & _). done.
Qed.

Lemma wrap_uint64_succ_neq z : wrap_uint64 (z + 1) <> wrap_uint64 z.
Proof.
  unfold wrap_uint64. intros Heq.
  assert (H : (z + 1 - z) mod 2 ^ 64 = 0)
    by (rewrite Zminus_mod, Heq, Z.sub_diag; reflexivity).
  replace (z + 1 - z) with 1 in H by lia. discriminate H.
Qed.

(** ** The points of an attempt *)

Lemma runOps_app ops1 ops2 s :
  runOps (ops1 ++ ops2) s = (runOps ops1 ;; runOps ops2) s.
Proof.
  revert s. induction ops1 as [|op ops1 IH]; intros s; [done|].
  unfold runOps in *. simpl. unfold bind in *.
  destruct (runOp op s) as [[] s1|s1]; [apply IH|done].
Qed.

Lemma runOps_emits evs s :
  runOps (OpEmit <$> evs) s = Ret tt (addEvents s evs).
Proof.
  revert s. induction evs as [|e evs IH]; intros s.
  - by rewrite addEvents_nil.
  - unfold runOps in *. simpl. unfold bind.
    rewrite emit_addEvents, IH, addEvents_app. done.
Qed.

Lemma existsb_emits f evs :
  (forall e, f (OpEmit e) = false) -> existsb f (OpEmit <$> evs) = false.
Proof. intros Hf. induction evs as [|e evs IH]; simpl; [done|]. by rewrite Hf. Qed.

Lemma balanced_call c o e :
  c = wrap_uint64 (o + e) ->
  wrap_uint64 (c + 1) = wrap_uint64 (o + e + 1)
  /\ wrap_uint64 (c + 1) <> wrap_uint64 (o + e).
Proof.
  intros ->. rewrite wrap_uint64_add_l. split; [done|].
  apply wrap_uint64_succ_neq.
Qed.

Lemma balanced_ok c o e :
  c = wrap_uint64 (o + e) ->
  wrap_uint64 (c + 1) = wrap_uint64 (wrap_uint64 (o + 1) + e).
Proof. intros ->. rewrite !wrap_uint64_add_l. f_equal. lia. Qed.

Lemma balanced_err c o e :
  c = wrap_uint64 (o + e) ->
  wrap_uint64 (c + 1) = wrap_uint64 (o + wrap_uint64 (e + 1)).
Proof.
  intros ->. rewrite wrap_uint64_add_l.
  rewrite (Z.add_comm o (wrap_uint64 (e + 1))), wrap_uint64_add_l.
  f_equal. lia.
Qed.

(** The statements of an attempt, run one after the other, are the
    attempt. *)
Lemma attemptOps_runs p cmd addr i s req res :
  runOps (attemptOps p cmd addr i req res) s
  = Ret tt (attemptState s res (attemptEvents p cmd addr i req res)).
Proof.
  unfold attemptOps. rewrite runOps_app. unfold bind at 1.
  rewrite runOps_emits. unfold attemptEvents, attemptState.
  destruct res as [code|[[|?] ?|?]], (PrintState p); simpl;
    cbv [runOps for_range runOp bind emit incr_callCount incr_errCount
         incr_okCount ret addEvents];
    cbn [callCount errCount okCount doneClosed trace];
    f_equal; f_equal; by rewrite <- ?app_assoc.
Qed.

(** At every point of an attempt that starts with the counters in balance
    they are in balance, but for the points from [callCount++] to the
    increment of the success or the failure counter, where the call
    counter is one ahead. *)
Lemma attemptOps_points p cmd addr i s req res pre post :
  balanced s ->
  attemptOps p cmd addr i req res = pre ++ post ->
  exists pt,
    runOps pre s = Ret tt pt
    /\ if inSpan pre
       then callCount pt = wrap_uint64 (okCount pt + errCount pt + 1)
            /\ callCount pt <> wrap_uint64 (okCount pt + errCount pt)
       else callCount pt = wrap_uint64 (okCount pt + errCount pt).
Proof.
  intros Hbal Hsplit. unfold balanced in Hbal. unfold attemptOps in Hsplit.
  apply app_eq_app in Hsplit as [l [[Hlogs _]|[-> Htail]]].
  - apply fmap_app_inv in Hlogs as (evs1 & evs2 & -> & _ & _).
    rewrite runOps_emits. eexists. split; [reflexivity|].
    unfold inSpan. rewrite existsb_emits by done. exact Hbal.
  - assert (Hgoal : forall tail,
      (exists pt, runOps tail (addEvents s (headerLogs (Headers cmd)))
                  = Ret tt pt
         /\ if existsb isCall tail && negb (existsb isCount tail)
            then callCount pt = wrap_uint64 (okCount pt + errCount pt + 1)
                 /\ callCount pt <> wrap_uint64 (okCount pt + errCount pt)
            else callCount pt = wrap_uint64 (okCount pt + errCount pt)) ->
      exists pt,
        runOps ((OpEmit <$> headerLogs (Headers cmd)) ++ tail) s = Ret tt pt
        /\ if inSpan ((OpEmit <$> headerLogs (Headers cmd)) ++ tail)
           then callCount pt = wrap_uint64 (okCount pt + errCount pt + 1)
                /\ callCount pt <> wrap_uint64 (okCount pt + errCount pt)
           else callCount pt = wrap_uint64 (okCount pt + errCount pt)).
    { intros tail (pt & Hrun & Hpt). exists pt.
      rewrite runOps_app. unfold bind. rewrite runOps_emits.
      split; [exact Hrun|].
      unfold inSpan. rewrite !existsb_app, !existsb_emits by done.
      exact Hpt. }
    apply Hgoal. clear Hgoal.
    pose proof (balanced_call _ _ _ Hbal) as [Hmid Hneq].
    pose proof (balanced_ok _ _ _ Hbal) as Hok.
    pose proof (balanced_err _ _ _ Hbal) as Herr.
    destruct res as [code|[[|?] ?|?]], (PrintState p); simpl in Htail;
      repeat (destruct l as [|? l];
              [|injection Htail as <- Htail]);
      try (destruct l as [|? l]; [|discriminate Htail]);
      (eexists; split; [reflexivity|]); simpl; auto.
Qed.

Lemma ran_balanced s s' evs :
  declared s -> ran s s' evs -> balanced s'.
Proof.
  intros (Hc & He & Ho) (_ & _ & Hc' & He' & Ho'). unfold balanced.
  assert (Hu : uint64 0) by (unfold uint64; lia).
  rewrite Hc', He', Ho', Hc, He, Ho, calls_split.
  set (a := length (successes evs)). set (b := length (failures evs)).
  destruct (decide (a + b = 0)%nat) as [Hz|Hnz].
  - assert (a = 0%nat) as -> by lia. assert (b = 0%nat) as -> by lia.
    reflexivity.
  - rewrite bump_wrap by lia. unfold wrap_uint64 at 1.
    assert (Hab : forall n, bump n 0 = Z.of_nat n mod 2 ^ 64).
    { intros [|n]; [done|]. rewrite bump_wrap by lia. done. }
    rewrite !Hab. unfold wrap_uint64.
    rewrite <- Zplus_mod. f_equal. lia.
Qed.

(** ** The whole run *)

(** Lines 126-241: the loops, the final log line and the summary. *)
Lemma Start_started p s :
  Start p s
  = (for_range (Ports p) (probePort p) ;;
     emit (EvLog "HTTP probe done.") ;;
     when (PrintState p) (printSummary p) ;;
     close_doneChan) (started p s).
Proof.
  unfold Runner.Start, started, startEvents, bind at 1 2 3 4, when.
  destruct (PrintState p); simpl; rewrite <- ?app_assoc; reflexivity.
Qed.

Lemma printSummary_Ret p s :
  printSummary p s
  = Ret tt (addEvents s
      [EvPrint (LineSummary (PrintPrefix p) (callCount s) (errCount s)
                  (okCount s));
       EvPrint (LineDone (PrintPrefix p)
                  (if callCount s =? 0 then "warning=no.calls"
                   else if okCount s =? 0 then "warning=no.successful.calls"
                   else ""))]).
Proof.
  unfold printSummary, bind, get, emit, addEvents. simpl.
  by rewrite <- app_assoc.
Qed.

Lemma Start_loops_panic p s s2 :
  for_range (Ports p) (probePort p) (started p s) = Panic s2 ->
  Start p s = Panic s2.
Proof. intros H. rewrite Start_started. unfold bind at 1. by rewrite H. Qed.

Lemma Start_loops_ret p s s2 :
  for_range (Ports p) (probePort p) (started p s) = Ret tt s2 ->
  Start p s
  = close_doneChan
      (addEvents s2
         (EvLog "HTTP probe done."
          :: if PrintState p
             then [EvPrint (LineSummary (PrintPrefix p) (callCount s2)
                              (errCount s2) (okCount s2));
                   EvPrint (LineDone (PrintPrefix p)
                     (if callCount s2 =? 0 then "warning=no.calls"
                      else if okCount s2 =? 0
                           then "warning=no.successful.calls"
                           else ""))]
             else [])).
Proof.
  intros H. rewrite Start_started. unfold bind at 1. rewrite H.
  unfold bind at 1. rewrite emit_addEvents. unfold bind at 1.
  destruct (PrintState p); unfold when.
  - rewrite printSummary_Ret, addEvents_app. reflexivity.
  - reflexivity.
Qed.

(** The run up to the closing of the channel is a walk from [started];
    it ends in a panic, or with the summary printed (when asked for) from
    the final counters and the channel closed. *)
Lemma Start_walk p s :
  exists s_last,
    rtc (step p) (started p s) s_last
    /\ (Start p s = Panic s_last
        \/ Start p s = Ret tt (closed s_last)
           /\ doneClosed s = false
           /\ (PrintState p = true ->
               EvPrint (LineSummary (PrintPrefix p) (callCount s_last)
                          (errCount s_last) (okCount s_last))
               ∈ trace s_last)).
Proof.
  set (s1 := started p s).
  pose proof (walks_for_range p (Ports p) (probePort p)
                (walks_probePort p) s1) as Hloops.
  destruct (for_range (Ports p) (probePort p) s1) as [[] s2|s2] eqn:Hrun;
    simpl in Hloops.
  2:{ exists s2. split; [done|]. left. by apply Start_loops_panic. }
  rewrite (Start_loops_ret p s s2 Hrun).
  set (evs := _ :: _). exists (addEvents s2 evs).
  assert (Hwalk : rtc (step p) s1 (addEvents s2 evs)).
  { etrans; [exact Hloops|]. apply steps_addEvents. unfold evs.
    destruct (PrintState p); repeat constructor. }
  split; [done|].
  assert (Hd : doneClosed (addEvents s2 evs) = doneClosed s) by
    (destruct (steps_ran p s1 _ Hwalk) as (? & (_ & Hd & _) & _); done).
  unfold close_doneChan. rewrite Hd.
  destruct (doneClosed s) eqn:Hds; [by left|right].
  split; [|split; [done|]].
  - reflexivity.
  - intros Hprint. unfold evs. rewrite Hprint. simpl. set_solver.
Qed.

Lemma attempt_counts p cmd addr i s :
  match attempt p cmd addr i s with
  | Ret brk s' =>
      callCount s' = wrap_uint64 (callCount s + 1)
      /\ (if brk
          then okCount s' = wrap_uint64 (okCount s + 1)
               /\ errCount s' = errCount s
          else errCount s' = wrap_uint64 (errCount s + 1)
               /\ okCount s' = okCount s)
  | Panic s' =>
      callCount s' = callCount s /\ okCount s' = okCount s
      /\ errCount s' = errCount s
  end.
Proof.
  destruct (NewRequest (Method cmd) addr) as [r|] eqn:Hreq.
  - rewrite (attempt_Some p cmd addr i s r Hreq).
    destruct (Do _ _); simpl; done.
  - destruct (attempt_None p cmd addr i s Hreq) as (evs & -> & _). done.
Qed.

(** C10: in every state the run is in between two steps (a step is a
    whole attempt, or an event that is not a call), from the declaration
    of the counters on, the counters follow the calls of the trace, whose
    results are those [Do] gave: the call counter counts the calls, the
    success counter those that returned no error, the failure counter the
    others; so the call counter is the sum of the two others ([uint64]
    sum, and plain sum as long as it is below 2^64).  An attempt whose
    request was built returns; it bumps the call counter once, right after
    the call, then the success counter when [Do] returned no error and the
    failure counter otherwise, once.  At every point of the attempt, the
    state after some of its statements, the call counter is the sum of the
    two others, but for the points from [callCount++] to [okCount++] or
    [errCount++], where it is one ahead of the sum.  An attempt whose
    request was not built panics; it only adds events, and leaves the
    three counters untouched.  The summary line prints the final
    counters. *)
Theorem counters_balanced p s_init :
  (forall s,
     rtc (step p) (started p s_init) s ->
     (exists evs,
        trace s = trace (started p s_init) ++ evs
        /\ (forall pre req res post,
              evs = pre ++ EvDo req res :: post ->
              res = Do (trace (started p s_init) ++ pre) req)
        /\ callCount s = bump (length (calls evs)) 0
        /\ okCount s = bump (length (successes evs)) 0
        /\ errCount s = bump (length (failures evs)) 0)
     /\ callCount s = wrap_uint64 (okCount s + errCount s)
     /\ (okCount s + errCount s < 2 ^ 64 ->
         callCount s = okCount s + errCount s)
     /\ forall cmd addr i,
          (forall r,
             NewRequest (Method cmd) addr = Some r ->
             exists res s_mid s',
               res = Do (trace s ++ headerLogs (Headers cmd))
                       (prepared cmd r)
               /\ attempt p cmd addr i s = Ret (succeeded res) s'
               /\ attemptCall cmd addr s = Ret res s_mid
               /\ attemptRest p cmd addr i res s_mid
                  = Ret (succeeded res) s'
               /\ callCount s_mid = wrap_uint64 (callCount s + 1)
               /\ okCount s_mid = okCount s
               /\ errCount s_mid = errCount s
               /\ callCount s_mid
                  = wrap_uint64 (okCount s_mid + errCount s_mid + 1)
               /\ callCount s_mid
                  <> wrap_uint64 (okCount s_mid + errCount s_mid)
               /\ callCount s' = callCount s_mid
               /\ match res with
                  | DoOk _ =>
                      okCount s' = wrap_uint64 (okCount s + 1)
                      /\ errCount s' = errCount s
                  | DoErr _ =>
                      errCount s' = wrap_uint64 (errCount s + 1)
                      /\ okCount s' = okCount s
                  end
               /\ runOps (attemptOps p cmd addr i (prepared cmd r) res) s
                  = Ret tt s'
               /\ forall pre post,
                    attemptOps p cmd addr i (prepared cmd r) res
                    = pre ++ post ->
                    exists pt,
                      runOps pre s = Ret tt pt
                      /\ if inSpan pre
                         then callCount pt
                              = wrap_uint64 (okCount pt + errCount pt + 1)
                              /\ callCount pt
                                 <> wrap_uint64 (okCount pt + errCount pt)
                         else callCount pt
                              = wrap_uint64 (okCount pt + errCount pt))
          /\ (NewRequest (Method cmd) addr = None ->
              exists evs,
                attempt p cmd addr i s = Panic (addEvents s evs)
                /\ calls evs = []
                /\ callCount (addEvents s evs) = callCount s
                /\ okCount (addEvents s evs) = okCount s
                /\ errCount (addEvents s evs) = errCount s))
  /\ exists s_last,
      rtc (step p) (started p s_init) s_last
      /\ (Start p s_init = Panic s_last
          \/ Start p s_init = Ret tt (closed s_last)
             /\ (PrintState p = true ->
                 EvPrint (LineSummary (PrintPrefix p) (callCount s_last)
                            (errCount s_last) (okCount s_last))
                 ∈ trace s_last)).
Proof.
  split.
  - intros s Hwalk.
    destruct (steps_answered p _ _ Hwalk) as (evs & Hran & _ & Hans).
    assert (Hdecl : declared (started p s_init)) by done.
    pose proof (ran_balanced _ _ _ Hdecl Hran) as Hbal.
    destruct Hran as (Htr & _ & Hc & He & Ho).
    change (callCount (started p s_init)) with 0 in Hc.
    change (errCount (started p s_init)) with 0 in He.
    change (okCount (started p s_init)) with 0 in Ho.
    assert (Hu : uint64 0) by (unfold uint64; lia).
    split; [|split; [exact Hbal|split]].
    + exists evs. split; [exact Htr|].
      split; [intros pre req res post ->; by eapply answered_split|done].
    + intros Hsum. rewrite Hbal. apply wrap_uint64_small.
      pose proof (bump_uint64 (length (failures evs)) 0 Hu).
      pose proof (bump_uint64 (length (successes evs)) 0 Hu).
      unfold uint64 in *. lia.
    + intros cmd addr i. split.
      * intros r Hreq.
        pose proof (attempt_split p cmd addr i s) as Hsplit.
        rewrite (attempt_Some p cmd addr i s r Hreq) in Hsplit.
        unfold bind in Hsplit.
        rewrite (attemptCall_Some cmd addr s r Hreq) in Hsplit.
        set (req := prepared cmd r) in *.
        set (res := Do (trace s ++ headerLogs (Headers cmd)) req) in *.
        eexists res, _, _. split; [reflexivity|].
        split; [by apply attempt_Some|].
        split; [by apply attemptCall_Some|].
        split; [symmetry; exact Hsplit|].
        cbn [callCount okCount errCount attemptState].
        split; [done|]. split; [done|]. split; [done|].
        destruct (balanced_call _ _ _ Hbal) as [Hmid Hneq].
        split; [exact Hmid|]. split; [exact Hneq|].
        split; [done|]. split; [subst res req; by destruct (Do _ _)|].
        split; [apply attemptOps_runs|].
        intros pre post Hpre. by eapply attemptOps_points.
      * intros Hreq.
        destruct (attempt_None p cmd addr i s Hreq) as (evs' & -> & Hc' & _).
        by exists evs'.
  - destruct (Start_walk p s_init) as (s_last & Hwalk & Hend).
    exists s_last. split; [exact Hwalk|]. tauto.
Qed.

Lemma for_range_returns {A} (l : list A) (body : A -> M unit) :
  (forall x s, x ∈ l -> exists s', body x s = Ret tt s') ->
  forall s, exists s', for_range l body s = Ret tt s'.
Proof.
  induction l as [|x l IH]; intros Hbody s; simpl.
  - by exists s.
  - destruct (Hbody x s) as (s1 & H1); [set_solver|].
    unfold bind. rewrite H1. apply IH.
    intros y s' Hy. apply Hbody. set_solver.
Qed.

(** When every request of the configuration can be built, the run returns
    and closes the channel, once, as the last thing it does. *)
Lemma Start_completes p s :
  requests_ok NewRequest p ->
  doneClosed s = false ->
  exists s' evs,
    Start p s = Ret tt s'
    /\ DoneChan s' = true
    /\ trace s' = trace s ++ evs ++ [EvClose]
    /\ closes evs = [].
Proof.
  intros Hok Hopen.
  destruct (Start_walk p s) as (s_last & Hwalk & Hend).
  destruct (steps_ran p _ _ Hwalk) as (evs & (Htr & _) & Hcl).
  destruct Hend as [Hpanic|(Hret & _ & _)].
  - exfalso.
    destruct (for_range_returns (Ports p) (probePort p)) with
      (s := started p s) as (s2 & Hloops).
    { intros port s1 Hport. apply for_range_returns.
      intros cmd s1' Hcmd. apply for_range_returns.
      intros proto s1'' Hproto.
      destruct (Hok port cmd proto Hport Hcmd Hproto) as (r & Hreq).
      destruct (for_retry_ran p cmd _ r Hreq
                  (Z.to_nat (maxRetryCount p)) 0 s1'')
        as (s' & ? & ? & Hrun & _).
      by exists s'. }
    rewrite (Start_loops_ret p s s2 Hloops) in Hpanic.
    unfold close_doneChan in Hpanic. simpl in Hpanic.
    destruct (steps_ran p _ _
                (walks_for_range p (Ports p) (probePort p)
                   (walks_probePort p) (started p s)))
      as (? & (_ & Hd & _) & _).
    rewrite Hloops in Hd. simpl in Hd. rewrite Hd, Hopen in Hpanic. done.
  - exists (closed s_last), (startEvents p ++ evs).
    split; [exact Hret|]. split; [done|]. split.
    + unfold closed, started in *. cbn [trace] in *. rewrite Htr.
      by rewrite <- !app_assoc.
    + rewrite closes_app, Hcl. unfold startEvents.
      by destruct (PrintState p).
Qed.

End Run.

(** ** The scenarios *)

Import Scenarios.

Lemma failing_combination_refused :
  exists s' evs,
    Runner.probeProtocol NewRequest_any Do_refused (probe_8080 cmd_get 0 0)
      "8080" cmd_get "http" fresh = Ret tt s'
    /\ trace s' = evs
    /\ Z.of_nat (length (calls evs)) = 5
    /\ errCount s' = 5
    /\ okCount s' = 0.
Proof.
  destruct (failing_combination_exhausts_retries NewRequest_any Do_refused
              (probe_8080 cmd_get 0 0) "8080" cmd_get "http" fresh
              (request_8080 "http"))
    as (_ & s' & evs & Hrun & Htr & Hlen & _ & _ & Herr & Hok).
  - vm_compute. reflexivity.
  - intros h. reflexivity.
  - exists s', evs. repeat split; try done.
Defined.

Lemma successful_combination_second :
  exists s' evs e code,
    Runner.probeProtocol NewRequest_any Do_second (probe_8080 cmd_get 0 0)
      "8080" cmd_get "http" fresh = Ret tt s'
    /\ trace s' = evs
    /\ calls evs
       = [(prepared cmd_get (request_8080 "http"), DoErr e);
          (prepared cmd_get (request_8080 "http"), DoOk code)]
    /\ okCount s' = 1
    /\ errCount s' = 1
    /\ callCount s' = 2.
Proof.
  destruct (successful_combination_stops NewRequest_any Do_second
              (probe_8080 cmd_get 0 0) "8080" cmd_get "http" fresh
              (request_8080 "http"))
    as (s' & evs & errs & Hrun & Htr & _ & Hcall & Herr & _ & Hsucc).
  - vm_compute. reflexivity.
  - destruct (Hsucc 1%nat) as (code & Hcalls & Hlen & Hok).
    + vm_compute. reflexivity.
    + intros h Hh. unfold Do_second.
      destruct (length (calls h)); [reflexivity|simpl in Hh; lia].
    + intros h Hh. unfold Do_second. rewrite Hh. reflexivity.
    + destruct errs as [|e [|e' errs]]; try discriminate Hlen.
      exists s', evs, e, code. split; [exact Hrun|]. split; [exact Htr|].
      split; [exact Hcalls|]. split; [exact Hok|]. split; [exact Herr|].
      rewrite Hcall, Hcalls. reflexivity.
Defined.

Lemma backoff_by_bucket_wait_3 :
  exists res s' evs,
    Runner.attempt NewRequest_any Do_refused (probe_8080 cmd_get 0 3)
      cmd_get "http://127.0.0.1:8080/" 4 fresh = Ret (succeeded res) s'
    /\ trace s' = trace fresh ++ evs
    /\ calls evs = [(prepared cmd_get (request_8080 "http"), res)]
    /\ sleeps evs
       = match res with
         | DoOk _ => []
         | DoErr (url_Error io_EOF _) => [6000000000]
         | DoErr (url_Error (inner_error _) _) => [3000000000]
         | DoErr (plain_error _) => [1000000000]
         end.
Proof.
  destruct (backoff_by_bucket NewRequest_any Do_refused
              (probe_8080 cmd_get 0 3) cmd_get "http://127.0.0.1:8080/"
              4 fresh (request_8080 "http"))
    as (res & s' & evs & Hrun & Htr & Hcalls & Hsleeps & _).
  - vm_compute. reflexivity.
  - exists res, s', evs.
    split; [exact Hrun|]. split; [exact Htr|]. split; [exact Hcalls|].
    rewrite Hsleeps. destruct res as [code|[[|msg'] msg|msg]]; reflexivity.
Defined.

(** With a retry wait of 2 * 10^10 seconds none of the three waits fits
    a [time.Duration] in nanoseconds: the runner does not sleep for [2w],
    [w] or [w/2] seconds, and after an error that is no URL error it asks
    for a negative sleep. *)
Lemma backoff_overflows_int64 :
  let p := probe_8080 cmd_get 0 20000000000 in
  let slept Do :=
    sleeps (trace (state_of
              (Runner.attempt NewRequest_any Do p cmd_get
                 "http://127.0.0.1:8080/" 0 fresh))) in
  0 < RetryWait p
  /\ slept Do_eof = [3106511852580896768]
  /\ 3106511852580896768 <> 2 * RetryWait p * 1000000000
  /\ slept Do_refused = [1553255926290448384]
  /\ 1553255926290448384 <> RetryWait p * 1000000000
  /\ slept Do_plain = [-8446744073709551616]
  /\ -8446744073709551616 <> RetryWait p / 2 * 1000000000.
Proof.
  repeat split; try (vm_compute; reflexivity); vm_compute; discriminate.
Qed.

Lemma empty_protocol_four_calls :
  exists s' evs e1 e2 e3 e4,
    Runner.probeCmd NewRequest_any Do_refused (probe_8080 cmd_get 2 0)
      "8080" cmd_get fresh = Ret tt s'
    /\ trace s' = trace fresh ++ evs
    /\ calls evs
       = [(prepared cmd_get (request_8080 "http"), DoErr e1);
          (prepared cmd_get (request_8080 "http"), DoErr e2);
          (prepared cmd_get (request_8080 "https"), DoErr e3);
          (prepared cmd_get (request_8080 "https"), DoErr e4)].
Proof.
  apply (empty_protocol_two_series NewRequest_any Do_refused
           (probe_8080 cmd_get 2 0) "8080" cmd_get fresh).
  - reflexivity.
  - reflexivity.
  - vm_compute. reflexivity.
  - vm_compute. reflexivity.
  - intros h req. reflexivity.
Defined.


Lemma nil_request_panics_bad_method :
  exists s',
    Runner.attempt NewRequest_any Do_refused (probe_8080 cmd_bad_method 0 0)
      cmd_bad_method "http://127.0.0.1:8080/" 0 fresh = Panic s'
    /\ calls (trace s') = calls (trace fresh)
    /\ callCount s' = callCount fresh
    /\ errCount s' = errCount fresh
    /\ okCount s' = okCount fresh.
Proof.
  apply (nil_request_panics NewRequest_any Do_refused
           (probe_8080 cmd_bad_method 0 0) cmd_bad_method
           "http://127.0.0.1:8080/" 0 fresh).
  vm_compute. reflexivity.
Defined.

Lemma counters_balanced_after_two_attempts :
  let p := probe_8080 cmd_get 0 0 in
  let addr := "http://127.0.0.1:8080/" in
  let s1 := state_of (Runner.attempt NewRequest_any Do_second p cmd_get
                        addr 0 (started p fresh)) in
  let s2 := state_of (Runner.attempt NewRequest_any Do_second p cmd_get
                        addr 1 s1) in
  okCount s2 = 1 /\ errCount s2 = 1
  /\ callCount s2 = okCount s2 + errCount s2.
Proof.
  intros p addr s1 s2.
  destruct (counters_balanced NewRequest_any Do_second p fresh)
    as [Hpoints _].
  destruct (Hpoints s2) as (_ & _ & Hexact & _).
  - apply (rtc_l _ _ s1); [apply step_attempt|].
    apply (rtc_l _ _ s2); [apply step_attempt|]. apply rtc_refl.
  - split; [vm_compute; reflexivity|]. split; [vm_compute; reflexivity|].
    apply Hexact. vm_compute. reflexivity.
Defined.

(** Right after [callCount++] in the first attempt of a run, the call is
    counted and neither a success nor a failure is: the call counter is 1
    and the two others are 0. *)
Lemma unbalanced_after_callCount :
  let p := probe_8080 cmd_get 0 0 in
  let addr := "http://127.0.0.1:8080/" in
  exists res s_mid,
    Runner.attemptCall NewRequest_any Do_refused cmd_get addr
      (started p fresh) = Ret res s_mid
    /\ Runner.attempt NewRequest_any Do_refused p cmd_get addr 0
         (started p fresh)
       = attemptRest p cmd_get addr 0 res s_mid
    /\ trace s_mid
       `prefix_of` trace (state_of (Runner.Start NewRequest_any Do_refused
                                      p fresh))
    /\ callCount s_mid = 1 /\ okCount s_mid = 0 /\ errCount s_mid = 0
    /\ callCount s_mid <> okCount s_mid + errCount s_mid.
Proof.
  intros p addr. eexists _, _.
  split; [vm_compute; reflexivity|].
  split; [vm_compute; reflexivity|].
  split; [eexists; vm_compute; reflexivity|].
  repeat split. discriminate.
Qed.

(** C8: on a command whose method is not an HTTP token, whatever the
    target answers, the run panics in its first attempt: no request is
    sent and the done channel is never closed. *)
Theorem bad_method_never_completes Do :
  exists s',
    Runner.Start NewRequest_any Do (probe_8080 cmd_bad_method 0 0) fresh
    = Panic s'
    /\ DoneChan s' = false
    /\ closes (trace s') = []
    /\ calls (trace s') = [].
Proof.
  eexists. split; [vm_compute; reflexivity|].
  repeat split.
Qed.

End RunnerFacts.

(** * More about the port resolution *)

Module ResolverMore.
Import Resolver Scenarios ResolverFacts.

Lemma availablePorts_loop_None inspector entries acc :
  availablePorts_loop inspector entries acc = None <->
  exists k, (k, []) ∈ entries /\ k <> CmdPort inspector
            /\ k <> EvtPort inspector.
Proof.
  revert acc. induction entries as [|[k data] rest IH]; intros acc; simpl.
  - split; [done|]. intros (k & Hin & _). by apply elem_of_nil in Hin.
  - destruct (bool_decide (k = CmdPort inspector)
              || bool_decide (k = EvtPort inspector)) eqn:Hadm.
    + rewrite IH. apply orb_true_iff in Hadm.
      split; intros (k' & Hin & Hc & He); exists k'.
      * rewrite elem_of_cons. auto.
      * apply elem_of_cons in Hin as [Heq|Hin]; [|done].
        inversion Heq; subst.
        destruct Hadm as [H%bool_decide_eq_true|H%bool_decide_eq_true];
          congruence.
    + apply orb_false_iff in Hadm as [Hc%bool_decide_eq_false
                                        He%bool_decide_eq_false].
      destruct data as [|b bs]; simpl.
      * split; [intros _|done]. exists k. rewrite elem_of_cons. auto.
      * rewrite IH. split; intros (k' & Hin & Hc' & He'); exists k'.
        -- rewrite elem_of_cons. auto.
        -- apply elem_of_cons in Hin as [Heq|Hin]; [|done].
           inversion Heq.
Qed.

Lemma availablePorts_None rangeEntries inspector :
  entries_order_ok rangeEntries ->
  availablePorts rangeEntries inspector = None <->
  exists k, NetworkSettingsPorts inspector !! k = Some []
            /\ k <> CmdPort inspector /\ k <> EvtPort inspector.
Proof.
  intros Hord. unfold availablePorts. rewrite availablePorts_loop_None.
  split; intros (k & Hin & Hc & He); exists k; (split; [|done]).
  - rewrite (Hord _) in Hin. by apply elem_of_map_to_list in Hin.
  - rewrite (Hord _). by apply elem_of_map_to_list.
Qed.

Lemma availablePorts_order rangeEntries1 rangeEntries2 inspector :
  entries_order_ok rangeEntries1 ->
  entries_order_ok rangeEntries2 ->
  availablePorts rangeEntries1 inspector
  = availablePorts rangeEntries2 inspector.
Proof.
  intros H1 H2.
  destruct (availablePorts rangeEntries1 inspector) as [a1|] eqn:E1,
           (availablePorts rangeEntries2 inspector) as [a2|] eqn:E2.
  - f_equal. apply set_eq. intros x.
    rewrite (availablePorts_elem _ elements _ _ H1 E1 x).
    by rewrite (availablePorts_elem _ elements _ _ H2 E2 x).
  - exfalso. apply (availablePorts_None _ _ H2) in E2.
    apply (availablePorts_None _ _ H1) in E2. congruence.
  - exfalso. apply (availablePorts_None _ _ H1) in E1.
    apply (availablePorts_None _ _ H2) in E1. congruence.
  - done.
Qed.

(** X1: the available-port set holds exactly the host port of the first
    binding of every mapped container port other than the command port and
    the event port of the sensor, in whatever order the map is visited. *)
Theorem available_ports_first_bindings rangeEntries inspector avail :
  entries_order_ok rangeEntries ->
  availablePorts rangeEntries inspector = Some avail ->
  forall port,
    port ∈ avail <->
    exists k b bs,
      NetworkSettingsPorts inspector !! k = Some (b :: bs)
      /\ k <> CmdPort inspector /\ k <> EvtPort inspector
      /\ HostPort b = port.
Proof. apply (availablePorts_elem rangeEntries elements). Qed.

Lemma available_ports_three :
  availablePorts map_to_list inspector_three
  = Some {["32769"; "32770"; "32771"]}
  /\ ("32768" ∈ ({["32769"; "32770"; "32771"]} : gset string) <->
      exists k b bs,
        NetworkSettingsPorts inspector_three !! k = Some (b :: bs)
        /\ k <> CmdPort inspector_three /\ k <> EvtPort inspector_three
        /\ HostPort b = "32768").
Proof.
  assert (Hav : availablePorts map_to_list inspector_three
                = Some {["32769"; "32770"; "32771"]})
    by (vm_compute; reflexivity).
  split; [exact Hav|].
  apply (available_ports_first_bindings map_to_list inspector_three
           _ (fun m => reflexivity _) Hav).
Defined.

(** X2: the constructor panics, on the index [0] of line 64, exactly when
    some mapped port other than the command and event ports has no host
    binding; otherwise it returns a probe. *)
Theorem unpublished_port_panics rangeEntries rangeKeys inspector cmds
    retryCount retryWait targetPorts printState printPrefix :
  entries_order_ok rangeEntries ->
  NewCustomProbe rangeEntries rangeKeys inspector cmds retryCount retryWait
    targetPorts printState printPrefix = None
  <-> exists k, NetworkSettingsPorts inspector !! k = Some []
                /\ k <> CmdPort inspector /\ k <> EvtPort inspector.
Proof.
  intros Hord. rewrite <- (availablePorts_None rangeEntries inspector Hord).
  unfold NewCustomProbe.
  destruct (availablePorts rangeEntries inspector); split; done.
Qed.

Lemma unpublished_port_panics_9090 :
  NewCustomProbe map_to_list elements inspector_unpublished [] 0 0 []
    false "" = None.
Proof.
  apply (unpublished_port_panics map_to_list elements inspector_unpublished
           [] 0 0 [] false "").
  - intros m. reflexivity.
  - exists "9090/tcp". split; [vm_compute; reflexivity|].
    split; discriminate.
Defined.

(** X3: the available-port set does not depend on the order in which the
    port map is visited, and with a target filter neither does the probe
    the constructor returns: it is the same for any two visiting orders of
    the two maps. *)
Theorem target_filter_order_independent rangeEntries1 rangeEntries2
    rangeKeys1 rangeKeys2 inspector cmds retryCount retryWait targetPorts
    printState printPrefix :
  entries_order_ok rangeEntries1 ->
  entries_order_ok rangeEntries2 ->
  availablePorts rangeEntries1 inspector
  = availablePorts rangeEntries2 inspector
  /\ (targetPorts <> [] ->
      NewCustomProbe rangeEntries1 rangeKeys1 inspector cmds retryCount
        retryWait targetPorts printState printPrefix
      = NewCustomProbe rangeEntries2 rangeKeys2 inspector cmds retryCount
          retryWait targetPorts printState printPrefix).
Proof.
  intros H1 H2.
  pose proof (availablePorts_order _ _ inspector H1 H2) as Heq.
  split; [exact Heq|]. intros Hne.
  unfold NewCustomProbe. rewrite Heq.
  destruct (availablePorts rangeEntries2 inspector); [|done].
  do 2 f_equal. unfold resolvePorts.
  rewrite bool_decide_eq_true_2 by (destruct targetPorts; simpl; [done|lia]).
  done.
Qed.

Lemma target_filter_order_independent_reversed :
  availablePorts map_to_list inspector_three
  = availablePorts reversed_entries inspector_three
  /\ NewCustomProbe map_to_list elements inspector_three [] 0 0
       [32771%N; 80%N; 32769%N] false ""
     = NewCustomProbe reversed_entries reversed_keys inspector_three [] 0 0
         [32771%N; 80%N; 32769%N] false "".
Proof.
  destruct (target_filter_order_independent map_to_list reversed_entries
              elements reversed_keys inspector_three [] 0 0
              [32771%N; 80%N; 32769%N] false "") as [Hav Hprobe].
  - intros m. reflexivity.
  - intros m. unfold reversed_entries. by rewrite <- Permutation_rev.
  - split; [exact Hav|]. apply Hprobe. discriminate.
Defined.

(** X4: without a target filter the probe's ports are the exposed ports,
    last declared first, followed by the available ports that are not
    exposed, each once: every available port is probed, and when the image
    exposes nothing the ports are the available ports in some order. *)
Theorem unfiltered_ports_cover_available rangeEntries rangeKeys inspector
    cmds retryCount retryWait printState printPrefix avail :
  keys_order_ok rangeKeys ->
  availablePorts rangeEntries inspector = Some avail ->
  exists probe tail,
    NewCustomProbe rangeEntries rangeKeys inspector cmds retryCount
      retryWait [] printState printPrefix = Some probe
    /\ Ports probe = rev (ExposedPorts inspector) ++ tail
    /\ NoDup tail
    /\ (forall port,
          port ∈ tail <-> port ∈ avail /\ port ∉ ExposedPorts inspector)
    /\ (forall port, port ∈ avail -> port ∈ Ports probe)
    /\ (ExposedPorts inspector = [] -> Ports probe ≡ₚ elements avail).
Proof.
  intros Hkeys Hav.
  destruct (NewCustomProbe_ports rangeEntries rangeKeys inspector cmds
              retryCount retryWait [] printState printPrefix avail Hav)
    as (probe & Hprobe & Hports).
  rewrite resolvePorts_exposed in Hports.
  set (rest := avail ∖ list_to_set (ExposedPorts inspector)) in *.
  pose proof (Hkeys rest) as Hperm.
  assert (Htail : forall port,
            port ∈ rangeKeys rest
            <-> port ∈ avail /\ port ∉ ExposedPorts inspector).
  { intros port. rewrite Hperm, elem_of_elements. unfold rest.
    rewrite elem_of_difference, elem_of_list_to_set. done. }
  exists probe, (rangeKeys rest).
  split; [exact Hprobe|]. split; [exact Hports|].
  split; [rewrite Hperm; apply NoDup_elements|].
  split; [exact Htail|]. split.
  - intros port Hin. rewrite Hports, elem_of_app.
    destruct (decide (port ∈ ExposedPorts inspector)) as [Hexp|Hexp].
    + left. apply list_elem_of_In, in_rev. rewrite rev_involutive.
      by apply list_elem_of_In.
    + right. by apply Htail.
  - intros Hnone. rewrite Hports, Hperm. unfold rest. rewrite Hnone.
    simpl. by rewrite difference_empty_L.
Qed.

Lemma unfiltered_ports_three :
  exists probe tail,
    NewCustomProbe map_to_list elements inspector_three [] 0 0 [] false ""
    = Some probe
    /\ Ports probe = ["9000"] ++ tail
    /\ NoDup tail
    /\ forall port,
         port ∈ ({["32769"; "32770"; "32771"]} : gset string) ->
         port ∈ Ports probe.
Proof.
  destruct (unfiltered_ports_cover_available map_to_list elements
              inspector_three [] 0 0 false ""
              {["32769"; "32770"; "32771"]})
    as (probe & tail & Hprobe & Hports & Hnodup & _ & Hall & _).
  - intros m. reflexivity.
  - vm_compute. reflexivity.
  - exists probe, tail. repeat split; done.
Defined.

End ResolverMore.

(** * More about the probe loop *)

Module RunnerMore.
Import Runner Scenarios RunnerFacts.

(** ** Loops *)

Lemma for_range_ext {A} (l : list A) (body1 body2 : A -> M unit) s :
  (forall x s', body1 x s' = body2 x s') ->
  for_range l body1 s = for_range l body2 s.
Proof.
  intros Hext. revert s. induction l as [|x l IH]; intros s; simpl; [done|].
  unfold bind. rewrite Hext. destruct (body2 x s); [apply IH|done].
Qed.

Lemma for_range_app {A} (l1 l2 : list A) (body : A -> M unit) s :
  for_range (l1 ++ l2) body s
  = (for_range l1 body ;; for_range l2 body) s.
Proof.
  revert s. induction l1 as [|x l1 IH]; intros s; simpl; [done|].
  unfold bind. destruct (body x s) as [[] s1|s1]; [|done].
  rewrite IH. done.
Qed.

Lemma for_range_singleton {A} (x : A) (body : A -> M unit) s :
  for_range [x] body s = body x s.
Proof. simpl. unfold bind, ret. by destruct (body x s) as [[] ?|?]. Qed.

Lemma for_range_bind {A B} (f : A -> list B) (l : list A)
    (body : B -> M unit) s :
  for_range (l ≫= f) body s
  = for_range l (fun x => for_range (f x) body) s.
Proof.
  revert s. induction l as [|x l IH]; intros s; [done|].
  change ((x :: l) ≫= f) with (f x ++ (l ≫= f)).
  rewrite for_range_app. simpl. unfold bind.
  destruct (for_range (f x) body s); [apply IH|done].
Qed.

(** A loop whose passes all return returns, and its events are the events
    of its passes one after the other. *)
Lemma for_range_segments {A} (Q : A -> list Event -> Prop) (l : list A)
    (body : A -> M unit) :
  (forall x s, x ∈ l ->
     exists s' evs, body x s = Ret tt s' /\ ran s s' evs /\ Q x evs) ->
  forall s,
  exists s' evss,
    for_range l body s = Ret tt s'
    /\ ran s s' (concat evss)
    /\ Forall2 Q l evss.
Proof.
  induction l as [|x l IH]; intros Hbody s; simpl.
  - exists s, []. split; [done|]. split; [apply ran_refl|constructor].
  - destruct (Hbody x s) as (s1 & evs1 & Hrun1 & Hran1 & HQ1); [set_solver|].
    destruct (IH (fun y s' Hy => Hbody y s' (list_elem_of_further _ _ _ Hy))
                 s1)
      as (s2 & evss & Hrun2 & Hran2 & HQ2).
    exists s2, (evs1 :: evss). unfold bind. rewrite Hrun1.
    split; [exact Hrun2|]. split; [by eapply ran_trans|by constructor].
Qed.

(** A loop one of whose passes always panics panics. *)
Lemma for_range_panics {A} (l : list A) (body : A -> M unit) x :
  x ∈ l ->
  (forall s, exists s', body x s = Panic s') ->
  forall s, exists s', for_range l body s = Panic s'.
Proof.
  intros Hin Hbad. induction l as [|y l IH]; intros s.
  - by apply elem_of_nil in Hin.
  - simpl. unfold bind. destruct (body y s) as [[] s1|s1] eqn:Hy.
    + apply elem_of_cons in Hin as [->|Hin].
      * destruct (Hbad s) as (s' & Hs'). congruence.
      * by apply IH.
    + by exists s1.
Qed.

(** ** Walks *)

Lemma walksBy_ret {A} R (a : A) : walksBy R (ret a).
Proof. intros s. apply rtc_refl. Qed.

Lemma walksBy_bind {A B} R (c : M A) (k : A -> M B) :
  walksBy R c -> (forall a, walksBy R (k a)) -> walksBy R (bind c k).
Proof.
  intros Hc Hk s. unfold bind. specialize (Hc s).
  destruct (c s) as [a s1|s1]; simpl in *; [|done].
  etrans; [exact Hc|apply Hk].
Qed.

Lemma walksBy_for_range {A} R (l : list A) body :
  (forall x, walksBy R (body x)) -> walksBy R (for_range l body).
Proof.
  intros Hbody. induction l as [|x l IH]; simpl.
  - apply walksBy_ret.
  - apply walksBy_bind; [apply Hbody|done].
Qed.

Lemma walksBy_for_retry R body fuel i :
  (forall j, walksBy R (body j)) -> walksBy R (for_retry body fuel i).
Proof.
  intros Hbody. revert i. induction fuel as [|fuel IH]; intros i; simpl.
  - apply walksBy_ret.
  - apply walksBy_bind; [apply Hbody|].
    intros [|]; [apply walksBy_ret|apply IH].
Qed.

(** ** What the events of attempts look like *)

Lemma prints_app tr1 tr2 : prints (tr1 ++ tr2) = prints tr1 ++ prints tr2.
Proof. apply omap_app. Qed.

Lemma logs_only evs :
  Forall isLog evs ->
  calls evs = [] /\ sleeps evs = [] /\ prints evs = [] /\ closes evs = [].
Proof.
  induction 1 as [|e evs He _ (Hc & Hs & Hp & Hcl)]; [done|].
  destruct e; try done.
Qed.

Lemma headerLogs_isLog headers : Forall isLog (headerLogs headers).
Proof.
  unfold headerLogs. apply Forall_fmap, Forall_true. intros hline. exact I.
Qed.

Lemma tidy_nil p : tidy p [].
Proof.
  unfold tidy. simpl. repeat split; try done. by destruct (PrintState p).
Qed.

Lemma tidy_app p evs1 evs2 : tidy p evs1 -> tidy p evs2 -> tidy p (evs1 ++ evs2).
Proof.
  intros (Hs1 & Hb1 & Hp1 & Ha1 & Hc1) (Hs2 & Hb2 & Hp2 & Ha2 & Hc2).
  unfold tidy.
  rewrite sleeps_app, failures_app, prints_app, calls_app, closes_app,
    !length_app, Hs1, Hs2, Hp1, Hp2, Hc1, Hc2.
  repeat split; try done.
  - by apply Forall_app.
  - by destruct (PrintState p).
  - by apply Forall_app.
Qed.

Lemma tidy_logs p evs : Forall isLog evs -> tidy p evs.
Proof.
  intros Hlogs. destruct (logs_only evs Hlogs) as (Hc & Hs & Hp & Hcl).
  unfold tidy, failures. rewrite Hc, Hs, Hp, Hcl.
  repeat split; try done. by destruct (PrintState p).
Qed.

Lemma tidy_attemptEvents p cmd addr i req res :
  tidy p (attemptEvents p cmd addr i req res).
Proof.
  unfold attemptEvents. apply tidy_app; [apply tidy_logs, headerLogs_isLog|].
  unfold tidy, failures.
  destruct (PrintState p), res as [code|[[|?] ?|?]]; simpl;
    repeat split; try done;
    try (apply Forall_singleton; unfold isBackoff; by auto);
    by repeat constructor.
Qed.

Section Run.
Variable NewRequest : string -> string -> option Request.
Variable Do : list Event -> Request -> Result.

#[local] Abbreviation attempt := (Runner.attempt NewRequest Do).
#[local] Abbreviation probeProtocol := (Runner.probeProtocol NewRequest Do).
#[local] Abbreviation probeCmd := (Runner.probeCmd NewRequest Do).
#[local] Abbreviation probePort := (Runner.probePort NewRequest Do).
#[local] Abbreviation probeCombination :=
  (Runner.probeCombination NewRequest Do).
#[local] Abbreviation newRequestOf := (Runner.newRequestOf NewRequest).
#[local] Abbreviation combinationEvents :=
  (Runner.combinationEvents NewRequest Do).
#[local] Abbreviation requests_ok := (Runner.requests_ok NewRequest).
#[local] Abbreviation tries := (Runner.tries NewRequest Do).
#[local] Abbreviation Start := (Runner.Start NewRequest Do).

(** ** The three loops as one loop over the combinations *)

Lemma loops_flatten p s :
  for_range (Ports p) (probePort p) s
  = for_range (combinations p) (probeCombination p) s.
Proof.
  unfold combinations. rewrite for_range_bind.
  apply for_range_ext. intros port s1.
  rewrite for_range_bind. apply for_range_ext. intros cmd s2.
  rewrite for_range_bind. apply for_range_ext. intros proto s3.
  by rewrite for_range_singleton.
Qed.

Lemma elem_of_combinations p port cmd proto :
  (port, cmd, proto) ∈ combinations p
  <-> port ∈ Ports p /\ cmd ∈ Cmds p /\ proto ∈ protocols cmd.
Proof.
  unfold combinations. rewrite list_elem_of_bind. split.
  - intros (port' & Hin & Hport).
    apply list_elem_of_bind in Hin as (cmd' & Hin & Hcmd).
    apply list_elem_of_bind in Hin as (proto' & Hin & Hproto).
    apply list_elem_of_singleton in Hin. by simplify_eq.
  - intros (Hport & Hcmd & Hproto). exists port. split; [|done].
    apply list_elem_of_bind. exists cmd. split; [|done].
    apply list_elem_of_bind. exists proto. split; [|done].
    by apply list_elem_of_singleton.
Qed.

Lemma requests_ok_combinations p :
  requests_ok p
  <-> forall c, c ∈ combinations p -> is_Some (newRequestOf p c).
Proof.
  split.
  - intros Hok [[port cmd] proto] Hin.
    apply elem_of_combinations in Hin as (? & ? & ?). by apply Hok.
  - intros Hall port cmd proto Hport Hcmd Hproto.
    apply (Hall (port, cmd, proto)). by apply elem_of_combinations.
Qed.

Lemma combination_returns p c r s :
  newRequestOf p c = Some r ->
  exists s' evs,
    probeCombination p c s = Ret tt s'
    /\ ran s s' evs
    /\ combinationEvents p c evs.
Proof.
  intros Hreq. destruct c as [[port cmd] proto].
  unfold Runner.combinationEvents.
  unfold Runner.newRequestOf in *. cbn [fst snd] in *.
  destruct (for_retry_ran NewRequest Do p cmd _ r Hreq
              (Z.to_nat (maxRetryCount p)) 0 s)
    as (s' & evs & errs & Hrun & Hran & Hcl & Hall & Hshape).
  exists s', evs. split; [exact Hrun|]. split; [exact Hran|].
  exists r. split; [exact Hreq|]. split; [by exists errs|]. done.
Qed.

Lemma combination_panics p c s :
  newRequestOf p c = None ->
  exists s', probeCombination p c s = Panic s'.
Proof.
  intros Hreq. destruct c as [[port cmd] proto].
  unfold Runner.newRequestOf in Hreq. cbn [fst snd] in Hreq.
  unfold Runner.probeCombination, Runner.probeProtocol. cbn [fst snd].
  pose proof (maxRetryCount_pos p) as Hpos.
  destruct (Z.to_nat (maxRetryCount p)) as [|fuel] eqn:Hfuel; [lia|].
  cbn [for_retry]. unfold bind.
  destruct (attempt_None NewRequest Do p cmd _ 0 s Hreq) as (evs & -> & _).
  eauto.
Qed.

Lemma loops_return p s :
  requests_ok p ->
  exists s' evss,
    for_range (Ports p) (probePort p) s = Ret tt s'
    /\ ran s s' (concat evss)
    /\ Forall2 (combinationEvents p) (combinations p) evss.
Proof.
  intros Hok. rewrite loops_flatten.
  apply for_range_segments. intros c s1 Hin.
  destruct (proj1 (requests_ok_combinations p) Hok c Hin) as (r & Hreq).
  by apply (combination_returns p c r).
Qed.

Lemma loops_panic p s c :
  c ∈ combinations p ->
  newRequestOf p c = None ->
  exists s', for_range (Ports p) (probePort p) s = Panic s'.
Proof.
  intros Hin Hreq. rewrite loops_flatten.
  apply (for_range_panics _ _ c Hin). intros s1.
  by apply combination_panics.
Qed.

(** ** Every run, whatever its outcome *)

Lemma applyHeaders_None_logs headers s :
  exists evs,
    Forall isLog evs
    /\ (applyHeaders headers None s = Panic (addEvents s evs)
        \/ applyHeaders headers None s = Ret None (addEvents s evs)).
Proof.
  revert s. induction headers as [|hline rest IH]; intros s.
  - exists []. rewrite addEvents_nil. simpl. auto.
  - simpl. destruct (SplitN2_cases hline) as [(h0 & h1 & -> & _)|[-> _]].
    + exists []. rewrite addEvents_nil. auto.
    + unfold bind. rewrite emit_addEvents.
      destruct (IH (addEvents s [malformedLog hline])) as (evs & Hlogs & H).
      exists (malformedLog hline :: evs).
      rewrite addEvents_app in H. simpl in H.
      split; [by constructor|exact H].
Qed.

Lemma attempt_None_logs p cmd addr i s :
  NewRequest (Method cmd) addr = None ->
  exists evs,
    attempt p cmd addr i s = Panic (addEvents s evs) /\ Forall isLog evs.
Proof.
  intros Hreq. unfold Runner.attempt. rewrite Hreq.
  destruct (applyHeaders_None_logs (Headers cmd) s) as (evs & Hlogs & [H|H]);
    exists evs; unfold bind at 1; rewrite H; [done|].
  split; [|done].
  unfold bind at 1. unfold applyBasicAuth.
  destruct (_ || _); reflexivity.
Qed.

Lemma tries_tidy p s s' :
  tries p s s' -> exists evs, ran s s' evs /\ tidy p evs.
Proof.
  intros (cmd & addr & i & ->).
  destruct (NewRequest (Method cmd) addr) as [r|] eqn:Hreq.
  - rewrite (attempt_Some NewRequest Do p cmd addr i s r Hreq). simpl.
    eexists. split; [eapply ran_attemptState, calls_attemptEvents|].
    apply tidy_attemptEvents.
  - destruct (attempt_None_logs p cmd addr i s Hreq) as (evs & -> & Hlogs).
    exists evs. simpl. split; [|by apply tidy_logs].
    apply ran_addEvents. by apply logs_only.
Qed.

Lemma walk_tidy p s s' :
  rtc (tries p) s s' -> exists evs, ran s s' evs /\ tidy p evs.
Proof.
  induction 1 as [s|s1 s2 s3 Hstep _ (evs2 & Hran2 & Ht2)].
  - exists []. split; [apply ran_refl|apply tidy_nil].
  - destruct (tries_tidy p s1 s2 Hstep) as (evs1 & Hran1 & Ht1).
    exists (evs1 ++ evs2). split; [by eapply ran_trans|by apply tidy_app].
Qed.

Lemma loops_walk p : walksBy (tries p) (for_range (Ports p) (probePort p)).
Proof.
  apply walksBy_for_range. intros port.
  apply walksBy_for_range. intros cmd.
  apply walksBy_for_range. intros proto.
  apply walksBy_for_retry. intros j s. apply rtc_once.
  by exists cmd, (target p port cmd proto), j.
Qed.

(** The three ways a run ends: a panic inside the loops, a panic on
    closing a channel that is closed already, or a normal return. *)
Lemma Start_cases p s :
  exists s2 evs,
    ran (started p s) s2 evs
    /\ tidy p evs
    /\ (for_range (Ports p) (probePort p) (started p s) = Panic s2
        /\ Start p s = Panic s2
        \/ (doneClosed s = true
            /\ for_range (Ports p) (probePort p) (started p s) = Ret tt s2
            /\ Start p s = Panic (addEvents s2 (finishEvents p s2)))
        \/ (doneClosed s = false
            /\ for_range (Ports p) (probePort p) (started p s) = Ret tt s2
            /\ Start p s
               = Ret tt (closed (addEvents s2 (finishEvents p s2))))).
Proof.
  destruct (walk_tidy p _ _ (loops_walk p (started p s)))
    as (evs & Hran & Htidy).
  destruct (for_range (Ports p) (probePort p) (started p s))
    as [[] s2|s2] eqn:Hloops; simpl in Hran; exists s2, evs;
    (split; [exact Hran|]); (split; [exact Htidy|]).
  - right.
    rewrite (Start_loops_ret NewRequest Do p s s2 Hloops).
    fold (finishEvents p s2). unfold close_doneChan.
    destruct Hran as (_ & Hd & _). simpl in Hd.
    change (doneClosed (addEvents s2 (finishEvents p s2)))
      with (doneClosed s2).
    rewrite Hd. destruct (doneClosed s); [left|right]; done.
  - left. split; [done|]. by apply Start_loops_panic.
Qed.

Lemma sleeps_startEvents p : sleeps (startEvents p) = [9 * time_Second].
Proof. unfold startEvents. by destruct (PrintState p). Qed.

Lemma calls_startEvents p : calls (startEvents p) = [].
Proof. unfold startEvents. by destruct (PrintState p). Qed.

Lemma prints_startEvents p :
  prints (startEvents p)
  = if PrintState p then [LineStarting (PrintPrefix p)] else [].
Proof. unfold startEvents. by destruct (PrintState p). Qed.

Lemma closes_startEvents p : closes (startEvents p) = [].
Proof. unfold startEvents. by destruct (PrintState p). Qed.

Lemma sleeps_finishEvents p s : sleeps (finishEvents p s) = [].
Proof. unfold finishEvents. by destruct (PrintState p). Qed.

Lemma calls_finishEvents p s : calls (finishEvents p s) = [].
Proof. unfold finishEvents. by destruct (PrintState p). Qed.

Lemma closes_finishEvents p s : closes (finishEvents p s) = [].
Proof. unfold finishEvents. by destruct (PrintState p). Qed.

Lemma prints_finishEvents p s :
  prints (finishEvents p s)
  = if PrintState p
    then [LineSummary (PrintPrefix p) (callCount s) (errCount s)
            (okCount s);
          LineDone (PrintPrefix p)
            (if callCount s =? 0 then "warning=no.calls"
             else if okCount s =? 0 then "warning=no.successful.calls"
             else "")]
    else [].
Proof. unfold finishEvents. by destruct (PrintState p). Qed.

(** The trace of a run: the start events, the events of the attempts and
    what the outcome adds. *)
Lemma Start_trace p s :
  exists s2 evs fin,
    ran (started p s) s2 evs
    /\ tidy p evs
    /\ trace (state_of (Start p s))
       = trace s ++ startEvents p ++ evs ++ fin
    /\ (for_range (Ports p) (probePort p) (started p s) = Panic s2
        /\ Start p s = Panic s2 /\ fin = []
        \/ (doneClosed s = true
            /\ for_range (Ports p) (probePort p) (started p s) = Ret tt s2
            /\ Start p s = Panic (addEvents s2 (finishEvents p s2))
            /\ fin = finishEvents p s2)
        \/ (doneClosed s = false
            /\ for_range (Ports p) (probePort p) (started p s) = Ret tt s2
            /\ Start p s
               = Ret tt (closed (addEvents s2 (finishEvents p s2)))
            /\ fin = finishEvents p s2 ++ [EvClose])).
Proof.
  destruct (Start_cases p s) as (s2 & evs & Hran & Htidy & Hcases).
  assert (Htr : trace s2 = trace s ++ startEvents p ++ evs).
  { destruct Hran as (Htr & _). rewrite Htr. simpl.
    by rewrite <- app_assoc. }
  destruct Hcases as [[Hl Hp]|[(Hd & Hl & Hp)|(Hd & Hl & Hr)]].
  - exists s2, evs, []. rewrite Hp, app_nil_r. cbn [state_of].
    split; [done|]. split; [done|]. split; [exact Htr|]. by left.
  - exists s2, evs, (finishEvents p s2). rewrite Hp.
    cbn [state_of addEvents trace].
    rewrite Htr, <- !app_assoc. split; [done|]. split; [done|].
    split; [done|]. right. left. done.
  - exists s2, evs, (finishEvents p s2 ++ [EvClose]). rewrite Hr.
    cbn [state_of closed addEvents trace].
    rewrite Htr, <- !app_assoc. split; [done|]. split; [done|].
    split; [done|]. right. right. done.
Qed.

(** X5: whatever its outcome, a run sleeps once to warm up, for 9
    seconds, and then exactly once for each call that failed, for one of
    the three waits of lines 143-150; it never sleeps after a call that
    succeeded. *)
Theorem sleeps_follow_failures p s :
  exists evs backoffs,
    trace (state_of (Start p s)) = trace s ++ evs
    /\ sleeps evs = 9 * time_Second :: backoffs
    /\ length backoffs = length (failures evs)
    /\ Forall (fun d => d = seconds (notReadyErrorWait p)
                       \/ d = seconds (webErrorWait p)
                       \/ d = seconds (otherErrorWait p)) backoffs.
Proof.
  destruct (Start_trace p s)
    as (s2 & evs & fin & _ & (Hs & Hb & _) & Htr & Hcases).
  assert (Hfin : sleeps fin = [] /\ calls fin = []).
  { destruct Hcases as [(_ & _ & ->)|[(_ & _ & _ & ->)|(_ & _ & _ & ->)]];
      rewrite ?sleeps_app, ?calls_app, ?sleeps_finishEvents,
        ?calls_finishEvents; done. }
  destruct Hfin as [Hsf Hcf].
  exists (startEvents p ++ evs ++ fin), (sleeps evs).
  split; [exact Htr|].
  unfold failures in *.
  rewrite !sleeps_app, !calls_app, sleeps_startEvents, calls_startEvents,
    Hsf, Hcf, app_nil_r. simpl. rewrite app_nil_r.
  split; [done|]. split; [exact Hs|exact Hb].
Qed.

(** X6: with [PrintState] off a run prints nothing, whatever its
    outcome. *)
Theorem silent_without_PrintState p s :
  PrintState p = false ->
  exists evs,
    trace (state_of (Start p s)) = trace s ++ evs
    /\ prints evs = [].
Proof.
  intros Hoff.
  destruct (Start_trace p s)
    as (s2 & evs & fin & _ & (_ & _ & Hp & _) & Htr & Hcases).
  exists (startEvents p ++ evs ++ fin). split; [exact Htr|].
  rewrite Hoff in Hp. apply nil_length_inv in Hp.
  rewrite !prints_app, prints_startEvents, Hp, Hoff. simpl.
  destruct Hcases as [(_ & _ & ->)|[(_ & _ & _ & ->)|(_ & _ & _ & ->)]];
    rewrite ?prints_app, ?prints_finishEvents, ?Hoff; done.
Qed.

(** X7: with [PrintState] on a run that returns has printed the starting
    line, one call line for each call it made, and last the summary with
    the final counters and the closing line. *)
Theorem lines_of_a_run p s s' :
  PrintState p = true ->
  Start p s = Ret tt s' ->
  exists evs lines warning,
    trace s' = trace s ++ evs
    /\ prints evs
       = LineStarting (PrintPrefix p) :: lines
         ++ [LineSummary (PrintPrefix p) (callCount s') (errCount s')
               (okCount s');
             LineDone (PrintPrefix p) warning]
    /\ length lines = length (calls evs)
    /\ Forall (fun l => is_Some (attemptOf l)) lines.
Proof.
  intros Hon Hret.
  destruct (Start_trace p s)
    as (s2 & evs & fin & _ & (_ & _ & Hp & Ha & _) & Htr & Hcases).
  rewrite Hret in Htr. simpl in Htr.
  destruct Hcases
    as [(_ & Hpanic & _)|[(_ & _ & Hpanic & _)|(_ & _ & Hr & ->)]];
    [congruence..|].
  rewrite Hret in Hr. injection Hr as ->. simpl.
  exists (startEvents p ++ evs ++ finishEvents p s2 ++ [EvClose]),
    (prints evs). eexists.
  split; [exact Htr|].
  rewrite !prints_app, !calls_app, prints_startEvents, calls_startEvents,
    prints_finishEvents, calls_finishEvents, Hon in *. simpl.
  rewrite !app_nil_r. split; [reflexivity|]. split; [exact Hp|exact Ha].
Qed.

Lemma last_app_two {A} (l1 l2 : list A) x y :
  last (l1 ++ l2 ++ [x; y]) = Some y.
Proof.
  change [x; y] with ([x] ++ [y]). rewrite !app_assoc. apply last_snoc.
Qed.

Lemma bump_zero n : bump n 0 = wrap_uint64 (Z.of_nat n).
Proof. destruct n as [|n]; [done|]. by rewrite bump_wrap by lia. Qed.

(** X8: the closing line of a run that returns warns of no calls when the
    run made none, of no successful calls when it made some and none
    succeeded, and of nothing otherwise (for fewer than 2^64 calls, the
    range of the counters). *)
Theorem warning_of_a_run p s s' :
  PrintState p = true ->
  Start p s = Ret tt s' ->
  exists evs,
    trace s' = trace s ++ evs
    /\ (Z.of_nat (length (calls evs)) < 2 ^ 64 ->
        last (prints evs)
        = Some (LineDone (PrintPrefix p)
                  (match calls evs, successes evs with
                   | [], _ => "warning=no.calls"
                   | _ :: _, [] => "warning=no.successful.calls"
                   | _ :: _, _ :: _ => ""
                   end))).
Proof.
  intros Hon Hret.
  destruct (Start_trace p s)
    as (s2 & evs & fin & Hran & _ & Htr & Hcases).
  rewrite Hret in Htr. cbn [state_of] in Htr.
  destruct Hcases
    as [(_ & Hpanic & _)|[(_ & _ & Hpanic & _)|(_ & _ & Hr & ->)]];
    [congruence..|].
  exists (startEvents p ++ evs ++ finishEvents p s2 ++ [EvClose]).
  split; [exact Htr|].
  unfold successes.
  rewrite !prints_app, !calls_app, calls_startEvents, calls_finishEvents,
    prints_finishEvents, Hon. simpl. rewrite app_nil_r.
  intros Hlt. rewrite last_app_two. do 2 f_equal.
  destruct Hran as (_ & _ & Hc & _ & Ho). simpl in Hc, Ho.
  fold (successes evs) in *.
  pose proof (calls_split evs) as Hsplit.
  assert (Hu : uint64 0) by (unfold uint64; lia).
  rewrite bump_small in Hc by (done || lia).
  rewrite bump_small in Ho by (done || lia).
  rewrite Hc, Ho.
  destruct (calls evs) as [|c cs], (successes evs) as [|o os]; done.
Qed.

(** ** Runs that return *)

Lemma combinations_nil p :
  Ports p = [] \/ Cmds p = [] -> combinations p = [].
Proof.
  unfold combinations. intros [->| ->]; [done|].
  induction (Ports p) as [|port ports IH]; [done|].
  rewrite bind_cons, IH. done.
Qed.

Lemma Start_without_combinations p s :
  combinations p = [] ->
  doneClosed s = false ->
  Start p s
  = Ret tt (closed (addEvents (started p s)
                      (finishEvents p (started p s)))).
Proof.
  intros Hnone Hopen.
  assert (Hloops : for_range (Ports p) (probePort p) (started p s)
                   = Ret tt (started p s))
    by (rewrite loops_flatten, Hnone; done).
  rewrite (Start_loops_ret NewRequest Do p s _ Hloops).
  fold (finishEvents p (started p s)).
  unfold close_doneChan. cbn [addEvents doneClosed started].
  by rewrite Hopen.
Qed.

(** X9: a probe without ports or without commands makes no call: its run
    only sleeps to warm up, logs, prints a summary of zero calls with the
    warning for no calls when the state is printed, and closes the done
    channel. *)
Theorem no_ports_or_commands_no_calls p s :
  Ports p = [] \/ Cmds p = [] ->
  doneClosed s = false ->
  exists s',
    Start p s = Ret tt s'
    /\ DoneChan s' = true
    /\ callCount s' = 0 /\ errCount s' = 0 /\ okCount s' = 0
    /\ trace s'
       = trace s
         ++ [EvSleep (9 * time_Second)]
         ++ (if PrintState p
             then [EvPrint (LineStarting (PrintPrefix p))] else [])
         ++ [EvLog "HTTP probe started..."; EvLog "HTTP probe done."]
         ++ (if PrintState p
             then [EvPrint (LineSummary (PrintPrefix p) 0 0 0);
                   EvPrint (LineDone (PrintPrefix p) "warning=no.calls")]
             else [])
         ++ [EvClose].
Proof.
  intros Hnone Hopen.
  rewrite (Start_without_combinations p s (combinations_nil p Hnone) Hopen).
  eexists. split; [reflexivity|]. unfold finishEvents, startEvents. cbn.
  repeat split.
  destruct (PrintState p); cbn; rewrite <- ?app_assoc; reflexivity.
Qed.

Lemma Start_returns p s :
  requests_ok p ->
  doneClosed s = false ->
  exists s2 evss,
    Start p s = Ret tt (closed (addEvents s2 (finishEvents p s2)))
    /\ ran (started p s) s2 (concat evss)
    /\ tidy p (concat evss)
    /\ Forall2 (combinationEvents p) (combinations p) evss.
Proof.
  intros Hok Hopen.
  destruct (loops_return p (started p s) Hok)
    as (s2 & evss & Hloops & Hran & Hall).
  exists s2, evss.
  assert (Htidy : tidy p (concat evss)).
  { destruct (walk_tidy p _ _ (loops_walk p (started p s)))
      as (evs & (Htr & _) & Htidy).
    rewrite Hloops in Htr. cbn [state_of] in Htr.
    destruct Hran as (Htr' & _). rewrite Htr' in Htr.
    apply app_inv_head in Htr. by rewrite Htr. }
  split; [|done].
  rewrite (Start_loops_ret NewRequest Do p s s2 Hloops).
  fold (finishEvents p s2). unfold close_doneChan.
  destruct Hran as (_ & Hd & _).
  change (doneClosed (addEvents s2 (finishEvents p s2)))
    with (doneClosed s2).
  rewrite Hd. cbn [started doneClosed]. by rewrite Hopen.
Qed.

Lemma requests_ok_dec p :
  requests_ok p
  \/ exists c, c ∈ combinations p /\ newRequestOf p c = None.
Proof.
  destruct (decide (Forall (fun c => is_Some (newRequestOf p c))
                      (combinations p))) as [Hall|Hnot].
  - left. apply requests_ok_combinations. by apply Forall_forall.
  - right. apply not_Forall_Exists in Hnot; [|apply _].
    apply Exists_exists in Hnot as (c & Hin & Hc). exists c.
    split; [done|]. simpl in Hc.
    destruct (newRequestOf p c); [|done]. exfalso. by apply Hc.
Qed.

(** X10: started on an open channel, a run returns exactly when every
    request of the configuration can be built; it then closes the channel,
    once and as its last event.  Otherwise it panics and the channel is
    never closed. *)
Theorem returns_iff_requests_built p s :
  doneClosed s = false ->
  (requests_ok p ->
   exists s' evs,
     Start p s = Ret tt s'
     /\ DoneChan s' = true
     /\ trace s' = trace s ++ evs ++ [EvClose]
     /\ closes evs = [])
  /\ (~ requests_ok p ->
      exists s' evs,
        Start p s = Panic s'
        /\ DoneChan s' = false
        /\ trace s' = trace s ++ evs
        /\ closes evs = []).
Proof.
  intros Hopen. split.
  - intros Hok.
    destruct (Start_returns p s Hok Hopen) as (s2 & evss & Hret & _).
    destruct (Start_trace p s)
      as (s2' & evs & fin & _ & (_ & _ & _ & _ & Hcl) & Htr & Hcases).
    rewrite Hret in Htr, Hcases. cbn [state_of] in Htr.
    destruct Hcases as [(_ & ? & _)|[(_ & _ & ? & _)|(_ & _ & Hr & ->)]];
      [congruence..|].
    eexists. exists (startEvents p ++ evs ++ finishEvents p s2').
    split; [exact Hret|]. split; [done|].
    split; [by rewrite Htr, <- !app_assoc|].
    by rewrite !closes_app, closes_startEvents, Hcl, closes_finishEvents.
  - intros Hbad.
    destruct (requests_ok_dec p) as [Hok|(c & Hin & Hnone)]; [done|].
    destruct (loops_panic p (started p s) c Hin Hnone) as (s2 & Hloops).
    pose proof (Start_loops_panic NewRequest Do p s s2 Hloops) as Hpanic.
    destruct (walk_tidy p _ _ (loops_walk p (started p s)))
      as (evs & (Htr & Hd & _) & (_ & _ & _ & _ & Hcl)).
    rewrite Hloops in Htr, Hd. cbn [state_of] in Htr, Hd.
    exists s2, (startEvents p ++ evs).
    split; [exact Hpanic|]. split.
    + unfold DoneChan. rewrite Hd. exact Hopen.
    + split; [by rewrite Htr; cbn; rewrite <- app_assoc|].
      by rewrite closes_app, closes_startEvents, Hcl.
Qed.

(** X11: started on a channel that is closed already, as a second [Start]
    of the same probe is, a run always ends in a panic; when every request
    can be built it first goes through its loops again and panics on
    closing the channel, after the final log line and the summary. *)
Theorem second_start_panics p s :
  doneClosed s = true ->
  exists s' evs,
    Start p s = Panic s'
    /\ trace s' = trace s ++ evs
    /\ closes evs = []
    /\ (requests_ok p -> exists before, evs = before ++ finishEvents p s').
Proof.
  intros Hclosed.
  destruct (Start_trace p s)
    as (s2 & evs & fin & _ & (_ & _ & _ & _ & Hcl) & Htr & Hcases).
  destruct Hcases as [(Hl & Hp & ->)|[(_ & Hl & Hp & ->)|(Hopen & _)]];
    [| |congruence].
  - exists s2, (startEvents p ++ evs). rewrite Hp in Htr.
    cbn [state_of] in Htr. rewrite app_nil_r in Htr.
    split; [exact Hp|]. split; [exact Htr|].
    split; [by rewrite closes_app, closes_startEvents, Hcl|].
    intros Hok. exfalso.
    destruct (loops_return p (started p s) Hok) as (s3 & ? & Hloops & _).
    congruence.
  - exists (addEvents s2 (finishEvents p s2)),
      (startEvents p ++ evs ++ finishEvents p s2).
    rewrite Hp in Htr. cbn [state_of] in Htr.
    split; [exact Hp|]. split; [exact Htr|].
    split; [by rewrite !closes_app, closes_startEvents, Hcl,
              closes_finishEvents|].
    intros _. exists (startEvents p ++ evs). by rewrite <- app_assoc.
Qed.

(** ** The calls of a run that returns *)

Lemma calls_concat evss : calls (concat evss) = concat (calls <$> evss).
Proof.
  induction evss as [|evs evss IH]; [done|].
  simpl. by rewrite calls_app, IH.
Qed.

Lemma Start_returns_trace p s :
  requests_ok p ->
  doneClosed s = false ->
  exists s' s2 evss,
    Start p s = Ret tt s'
    /\ s' = closed (addEvents s2 (finishEvents p s2))
    /\ trace s'
       = trace s ++ startEvents p ++ concat evss ++ finishEvents p s2
         ++ [EvClose]
    /\ ran (started p s) s2 (concat evss)
    /\ tidy p (concat evss)
    /\ Forall2 (combinationEvents p) (combinations p) evss.
Proof.
  intros Hok Hopen.
  destruct (Start_returns p s Hok Hopen)
    as (s2 & evss & Hret & Hran & Htidy & Hall).
  eexists; exists s2, evss. split; [exact Hret|]. split; [done|].
  split; [|done].
  destruct Hran as (Htr & _). cbn [closed addEvents trace].
  rewrite Htr. cbn [started trace]. by rewrite <- !app_assoc.
Qed.

Lemma calls_of_run p evs fin :
  calls (startEvents p ++ evs ++ finishEvents p fin ++ [EvClose])
  = calls evs.
Proof.
  rewrite !calls_app, calls_startEvents, calls_finishEvents. simpl.
  by rewrite app_nil_r.
Qed.

(** X12: a run whose requests can all be built goes through the
    combinations in the order of the loops, ports first, then commands,
    then protocols; the calls of a combination come together, all with
    the request of the combination, and are at most [maxRetryCount]
    failures, or fewer failures and then one success. *)
Theorem calls_in_loop_order p s :
  requests_ok p ->
  doneClosed s = false ->
  exists s' evs css,
    Start p s = Ret tt s'
    /\ trace s' = trace s ++ evs
    /\ calls evs = concat css
    /\ Forall2
         (fun c cs =>
            exists r,
              NewRequest (Method c.1.2) (target p c.1.1 c.1.2 c.2) = Some r
              /\ retried (prepared c.1.2 r) (Z.to_nat (maxRetryCount p)) cs)
         (combinations p) css.
Proof.
  intros Hok Hopen.
  destruct (Start_returns_trace p s Hok Hopen)
    as (s' & s2 & evss & Hret & _ & Htr & _ & _ & Hall).
  exists s', (startEvents p ++ concat evss ++ finishEvents p s2
              ++ [EvClose]), (calls <$> evss).
  split; [exact Hret|]. split; [exact Htr|].
  split; [by rewrite calls_of_run, calls_concat|].
  apply Forall2_fmap_r. eapply Forall2_impl; [exact Hall|].
  intros c evs (r & Hreq & Hretried & _). by exists r.
Qed.

Lemma retried_length req fuel cs :
  (0 < fuel)%nat -> retried req fuel cs ->
  (1 <= length cs <= fuel)%nat.
Proof.
  intros Hfuel (errs & [[-> Hlen]|(code & -> & Hlen)]).
  - rewrite length_fmap. lia.
  - rewrite length_app, length_fmap. simpl. lia.
Qed.

Lemma length_combinations p :
  length (combinations p)
  = (length (Ports p)
     * sum_list_with (fun cmd => length (protocols cmd)) (Cmds p))%nat.
Proof.
  unfold combinations.
  assert (Hcmds : forall port : string,
    length (Cmds p ≫= (fun cmd =>
              protocols cmd ≫= (fun proto => [(port, cmd, proto)])))
    = sum_list_with (fun cmd => length (protocols cmd)) (Cmds p)).
  { intros port. induction (Cmds p) as [|cmd cmds IH]; [done|].
    rewrite bind_cons, length_app, IH. simpl. f_equal.
    induction (protocols cmd) as [|proto protos IHp]; [done|].
    rewrite bind_cons. simpl. by rewrite IHp. }
  induction (Ports p) as [|port ports IH]; [done|].
  rewrite bind_cons, length_app, IH, Hcmds. simpl. lia.
Qed.

(** X13: a run whose requests can all be built makes at least one call
    and at most [maxRetryCount] calls for each combination, of which there
    are as many as ports times protocols of the commands. *)
Theorem calls_bounded p s :
  requests_ok p ->
  doneClosed s = false ->
  exists s' evs,
    Start p s = Ret tt s'
    /\ trace s' = trace s ++ evs
    /\ (length (combinations p) <= length (calls evs)
        <= length (combinations p) * Z.to_nat (maxRetryCount p))%nat
    /\ length (combinations p)
       = (length (Ports p)
          * sum_list_with (fun cmd => length (protocols cmd)) (Cmds p))%nat.
Proof.
  intros Hok Hopen.
  destruct (Start_returns_trace p s Hok Hopen)
    as (s' & s2 & evss & Hret & _ & Htr & _ & _ & Hall).
  exists s', (startEvents p ++ concat evss ++ finishEvents p s2
              ++ [EvClose]).
  split; [exact Hret|]. split; [exact Htr|].
  split; [|apply length_combinations].
  rewrite calls_of_run.
  pose proof (maxRetryCount_pos p) as Hpos.
  assert (Hfuel : (0 < Z.to_nat (maxRetryCount p))%nat) by lia.
  clear Htr Hret.
  induction Hall as [|c evs cs evss (r & _ & Hretried & _) _ IH];
    [simpl; lia|].
  apply (retried_length _ _ _ Hfuel) in Hretried.
  cbn [concat length]. rewrite calls_app, length_app. nia.
Qed.

Lemma retried_all_succeed req fuel cs :
  (0 < fuel)%nat ->
  Forall (fun call => succeeded call.2 = true) cs ->
  retried req fuel cs ->
  exists code, cs = [(req, DoOk code)].
Proof.
  intros Hfuel Hall (errs & [[-> Hlen]|(code & -> & Hlen)]).
  - destruct errs as [|e errs]; [simpl in Hlen; lia|]. by inversion Hall.
  - destruct errs as [|e errs]; [by exists code|]. by inversion Hall.
Qed.

(** X14: when every request can be built and every call succeeds, a run
    makes exactly one call for each combination, in the order of the
    loops, counts each as a success and none as a failure, and sleeps only
    to warm up. *)
Theorem one_call_each_when_all_succeed p s :
  requests_ok p ->
  doneClosed s = false ->
  (forall h req, succeeded (Do h req) = true) ->
  exists s' evs,
    Start p s = Ret tt s'
    /\ trace s' = trace s ++ evs
    /\ Forall2
         (fun c call =>
            exists r,
              NewRequest (Method c.1.2) (target p c.1.1 c.1.2 c.2) = Some r
              /\ call.1 = prepared c.1.2 r
              /\ succeeded call.2 = true)
         (combinations p) (calls evs)
    /\ callCount s' = wrap_uint64 (Z.of_nat (length (combinations p)))
    /\ okCount s' = wrap_uint64 (Z.of_nat (length (combinations p)))
    /\ errCount s' = 0
    /\ sleeps evs = [9 * time_Second].
Proof.
  intros Hok Hopen Hsucc.
  destruct (Start_returns_trace p s Hok Hopen)
    as (s' & s2 & evss & Hret & -> & Htr & Hran & Htidy & Hall).
  exists (closed (addEvents s2 (finishEvents p s2))),
    (startEvents p ++ concat evss ++ finishEvents p s2 ++ [EvClose]).
  split; [exact Hret|]. split; [exact Htr|].
  pose proof (maxRetryCount_pos p) as Hpos.
  assert (Hfuel : (0 < Z.to_nat (maxRetryCount p))%nat) by lia.
  assert (Hcalls :
    Forall2
      (fun c call =>
         exists r,
           NewRequest (Method c.1.2) (target p c.1.1 c.1.2 c.2) = Some r
           /\ call.1 = prepared c.1.2 r
           /\ succeeded call.2 = true)
      (combinations p) (calls (concat evss))).
  { clear -Hall Hsucc Hfuel.
    induction Hall as [|c evs cs evss (r & Hreq & Hretried & Hans & _) _ IH];
      [constructor|].
    cbn [concat]. rewrite calls_app.
    assert (Hok : Forall (fun call => succeeded call.2 = true) (calls evs)).
    { eapply Forall_impl; [exact Hans|]. intros call (h & ->).
      apply Hsucc. }
    destruct (retried_all_succeed _ _ _ Hfuel Hok Hretried) as (code & ->).
    constructor; [|exact IH]. exists r. done. }
  assert (Hfail : failures (concat evss) = []).
  { unfold failures, failed. clear -Hcalls.
    induction Hcalls as [|c call cs cl (r & _ & _ & Hs) _ IH]; [done|].
    rewrite filter_cons_False; [exact IH|]. simpl. by rewrite Hs. }
  assert (Hlen : length (calls (concat evss)) = length (combinations p))
    by (symmetry; by eapply Forall2_length).
  pose proof (calls_split (concat evss)) as Hsplit.
  rewrite Hfail in Hsplit. simpl in Hsplit.
  destruct Hran as (_ & _ & Hc & He & Ho). simpl in Hc, He, Ho.
  destruct Htidy as (Hs & _).
  rewrite Hfail in Hs, He. simpl in He.
  apply nil_length_inv in Hs.
  rewrite calls_of_run. split; [exact Hcalls|].
  cbn [closed addEvents callCount okCount errCount].
  rewrite Nat.add_0_r in Hsplit.
  rewrite Hc, Ho, He, !bump_zero, <- Hsplit, Hlen.
  repeat split.
  rewrite !sleeps_app, sleeps_startEvents, Hs, sleeps_finishEvents.
  reflexivity.
Qed.

(** ** One attempt, one combination *)

Lemma fold_addHeader_keeps headers r :
  ReqMethod (fold_left addHeader headers r) = ReqMethod r
  /\ ReqURL (fold_left addHeader headers r) = ReqURL r
  /\ BasicAuth (fold_left addHeader headers r) = BasicAuth r.
Proof.
  revert r. induction headers as [|hline rest IH]; intros r; [done|].
  simpl. destruct (IH (addHeader r hline)) as (-> & -> & ->).
  unfold addHeader.
  destruct (SplitN2_cases hline) as [(h0 & h1 & -> & _)|[-> _]]; done.
Qed.

(** X15: the request an attempt sends has the method and the URL that
    [http.NewRequest] gave it; it carries the credentials of the command
    as soon as the user name or the password is not empty, and otherwise
    those of the new request. *)
Theorem credentials_when_set p cmd addr i s r :
  NewRequest (Method cmd) addr = Some r ->
  exists req res s' evs,
    attempt p cmd addr i s = Ret (succeeded res) s'
    /\ trace s' = trace s ++ evs
    /\ calls evs = [(req, res)]
    /\ ReqMethod req = ReqMethod r
    /\ ReqURL req = ReqURL r
    /\ BasicAuth req
       = if decide (Username cmd = "" /\ Password cmd = "")
         then BasicAuth r
         else Some (Username cmd, Password cmd).
Proof.
  intros Hreq.
  set (req := prepared cmd r).
  set (res := Do (trace s ++ headerLogs (Headers cmd)) req).
  exists req, res,
    (attemptState s res (attemptEvents p cmd addr i req res)),
    (attemptEvents p cmd addr i req res).
  split; [by apply attempt_Some|]. split; [reflexivity|].
  split; [apply calls_attemptEvents|].
  destruct (fold_addHeader_keeps (Headers cmd) r) as (Hm & Hu & Ha).
  unfold req, prepared, withBasicAuth.
  destruct (decide (Username cmd = "" /\ Password cmd = ""))
    as [[Hun Hpw]|Hset].
  - rewrite !bool_decide_eq_false_2 by (intros H; by apply H). simpl. done.
  - assert (bool_decide (Username cmd <> "")
            || bool_decide (Password cmd <> "") = true) as ->.
    { apply orb_true_iff.
      destruct (decide (Username cmd = "")) as [Hun|Hun];
        [right|left]; apply bool_decide_eq_true_2; [|done].
      intros Hpw. by apply Hset. }
    simpl. done.
Qed.

(** X16: for a retry wait of at most 4611686018 seconds, the wait after a
    not-ready error is at least the wait after another URL error, which is
    at least the wait after any other error, and none is negative; with a
    positive retry wait the not-ready wait is twice the web-error wait. *)
Theorem backoff_waits_ordered p :
  RetryWait p <= 4611686018 ->
  0 <= seconds (otherErrorWait p)
  /\ seconds (otherErrorWait p) <= seconds (webErrorWait p)
  /\ seconds (webErrorWait p) <= seconds (notReadyErrorWait p)
  /\ (0 < RetryWait p ->
      seconds (notReadyErrorWait p) = 2 * seconds (webErrorWait p)).
Proof.
  intros Hw.
  unfold seconds, otherErrorWait, webErrorWait, notReadyErrorWait,
    time_Second.
  destruct (0 <? RetryWait p) eqn:Hpos.
  - apply Z.ltb_lt in Hpos.
    rewrite Z.quot_div_nonneg by lia.
    assert (0 <= RetryWait p / 2 <= RetryWait p).
    { split; [apply Z.div_pos; lia|].
      apply Z.div_le_upper_bound; lia. }
    rewrite (wrap_int64_small (RetryWait p * 2)) by lia.
    rewrite !wrap_int64_small by lia. lia.
  - rewrite !wrap_int64_small by lia. lia.
Qed.

Lemma prints_attemptEvents p cmd addr i req res :
  PrintState p = true ->
  omap attemptOf (prints (attemptEvents p cmd addr i req res)) = [i + 1].
Proof.
  intros Hon. unfold attemptEvents.
  destruct (logs_only _ (headerLogs_isLog (Headers cmd)))
    as (_ & _ & Hp & _).
  rewrite !prints_app, Hp, Hon.
  destruct res as [code|[[|?] ?|?]]; reflexivity.
Qed.

Lemma for_retry_numbers p cmd addr r :
  NewRequest (Method cmd) addr = Some r ->
  PrintState p = true ->
  forall fuel i s,
  exists s' evs,
    for_retry (attempt p cmd addr) fuel i s = Ret tt s'
    /\ trace s' = trace s ++ evs
    /\ (length (calls evs) <= fuel)%nat
    /\ omap attemptOf (prints evs)
       = seqZ (i + 1) (Z.of_nat (length (calls evs))).
Proof.
  intros Hreq Hon. induction fuel as [|fuel IH]; intros i s.
  - exists s, []. simpl. by rewrite app_nil_r.
  - simpl. unfold bind. rewrite (attempt_Some _ _ p cmd addr i s r Hreq).
    set (req := prepared cmd r).
    set (res := Do (trace s ++ headerLogs (Headers cmd)) req).
    set (evs1 := attemptEvents p cmd addr i req res).
    assert (Hc1 : calls evs1 = [(req, res)]) by apply calls_attemptEvents.
    assert (Hp1 : omap attemptOf (prints evs1) = [i + 1])
      by by apply prints_attemptEvents.
    destruct res as [code|e] eqn:Hres; cbn [succeeded].
    + exists (attemptState s (DoOk code) evs1), evs1.
      split; [done|]. split; [done|]. rewrite Hc1, Hp1.
      split; [simpl; lia|].
      change (Z.of_nat (length [(req, DoOk code)])) with 1.
      rewrite seqZ_cons by lia. reflexivity.
    + destruct (IH (i + 1) (attemptState s (DoErr e) evs1))
        as (s' & evs2 & Hrun & Htr & Hlen & Hnum).
      exists s', (evs1 ++ evs2). split; [exact Hrun|].
      split; [by rewrite Htr; cbn; rewrite <- app_assoc|].
      rewrite calls_app, prints_app, omap_app, Hc1, Hp1, Hnum, length_app.
      split; [simpl; lia|].
      rewrite (seqZ_cons (i + 1)) by (simpl; lia).
      cbn [app]. f_equal. f_equal; simpl; lia.
Qed.

(** X17: with [PrintState] on, the call lines of a combination number its
    attempts 1, 2, 3 and so on, one number for each call, and never beyond
    [maxRetryCount]. *)
Theorem attempts_numbered_from_one p port cmd proto s r :
  NewRequest (Method cmd) (target p port cmd proto) = Some r ->
  PrintState p = true ->
  exists s' evs,
    probeProtocol p port cmd proto s = Ret tt s'
    /\ trace s' = trace s ++ evs
    /\ omap attemptOf (prints evs)
       = seqZ 1 (Z.of_nat (length (calls evs)))
    /\ Z.of_nat (length (calls evs)) <= maxRetryCount p.
Proof.
  intros Hreq Hon.
  destruct (for_retry_numbers p cmd _ r Hreq Hon
              (Z.to_nat (maxRetryCount p)) 0 s)
    as (s' & evs & Hrun & Htr & Hlen & Hnum).
  exists s', evs. split; [exact Hrun|]. split; [exact Htr|].
  split; [exact Hnum|]. pose proof (maxRetryCount_pos p). lia.
Qed.

End Run.

(** ** From the constructor to the run *)

(** X18: when none of the target ports is available the constructor
    returns a probe without ports, and the run of that probe makes no call
    and closes the done channel. *)
Theorem unavailable_targets_no_calls rangeEntries rangeKeys NewRequest Do
    inspector cmds retryCount retryWait targetPorts printState printPrefix
    avail :
  Resolver.availablePorts rangeEntries inspector = Some avail ->
  targetPorts <> [] ->
  (forall pnum, pnum ∈ targetPorts -> pretty pnum ∉ avail) ->
  exists probe,
    Resolver.NewCustomProbe rangeEntries rangeKeys inspector cmds
      retryCount retryWait targetPorts printState printPrefix = Some probe
    /\ Ports probe = []
    /\ forall s,
         doneClosed s = false ->
         exists s',
           Runner.Start NewRequest Do probe s = Ret tt s'
           /\ calls (trace s') = calls (trace s)
           /\ DoneChan s' = true.
Proof.
  intros Hav Hne Hnone.
  destruct (ResolverFacts.NewCustomProbe_ports rangeEntries rangeKeys
              inspector cmds retryCount retryWait targetPorts printState
              printPrefix avail Hav) as (probe & Hprobe & Hports).
  assert (Hempty : Ports probe = []).
  { rewrite Hports. unfold Resolver.resolvePorts.
    rewrite bool_decide_eq_true_2
      by (destruct targetPorts; simpl; [done|lia]).
    rewrite ResolverFacts.targetPorts_loop_filter. simpl.
    clear -Hnone. induction targetPorts as [|pnum rest IH]; [done|].
    rewrite fmap_cons, filter_cons_False by (apply Hnone; set_solver).
    apply IH. intros q Hq. apply Hnone. set_solver. }
  exists probe. split; [exact Hprobe|]. split; [exact Hempty|].
  intros s Hopen.
  rewrite (Start_without_combinations NewRequest Do probe s
             (combinations_nil probe (or_introl Hempty)) Hopen).
  eexists. split; [reflexivity|]. split; [|done].
  cbn [closed addEvents trace started].
  rewrite !calls_app, calls_startEvents, calls_finishEvents. simpl.
  by rewrite !app_nil_r.
Qed.

(** ** The scenarios *)

Lemma requests_ok_8080 retryCount retryWait :
  requests_ok NewRequest_any (probe_8080 cmd_get retryCount retryWait).
Proof.
  intros port cmd proto Hport Hcmd Hproto. cbn in Hport, Hcmd.
  apply list_elem_of_singleton in Hport, Hcmd. subst.
  change (protocols cmd_get) with ["http"; "https"] in Hproto.
  apply elem_of_cons in Hproto as [->|Hproto];
    [|apply list_elem_of_singleton in Hproto as ->];
    vm_compute; eexists; reflexivity.
Qed.

Lemma silent_probe_quiet :
  exists evs,
    trace (state_of (Runner.Start NewRequest_any Do_refused
                       (probe_quiet cmd_get) fresh))
    = trace fresh ++ evs
    /\ prints evs = [].
Proof.
  apply (silent_without_PrintState NewRequest_any Do_refused
           (probe_quiet cmd_get) fresh).
  reflexivity.
Defined.

Lemma lines_of_refused_run :
  exists s' evs lines warning,
    Runner.Start NewRequest_any Do_refused (probe_8080 cmd_get 2 0) fresh
    = Ret tt s'
    /\ trace s' = trace fresh ++ evs
    /\ prints evs
       = LineStarting "docker-slim[build]:" :: lines
         ++ [LineSummary "docker-slim[build]:" (callCount s')
               (errCount s') (okCount s');
             LineDone "docker-slim[build]:" warning]
    /\ length lines = length (calls evs).
Proof.
  assert (exists s', Runner.Start NewRequest_any Do_refused
                       (probe_8080 cmd_get 2 0) fresh = Ret tt s')
    as (s' & Hret) by (eexists; vm_compute; reflexivity).
  destruct (lines_of_a_run NewRequest_any Do_refused
              (probe_8080 cmd_get 2 0) fresh s' eq_refl Hret)
    as (evs & lines & warning & Htr & Hprints & Hlen & _).
  exists s', evs, lines, warning. split; [exact Hret|].
  split; [exact Htr|]. split; [exact Hprints|exact Hlen].
Defined.

Lemma warning_of_refused_run :
  exists s' evs,
    Runner.Start NewRequest_any Do_refused (probe_8080 cmd_get 2 0) fresh
    = Ret tt s'
    /\ trace s' = trace fresh ++ evs
    /\ (Z.of_nat (length (calls evs)) < 2 ^ 64 ->
        last (prints evs)
        = Some (LineDone "docker-slim[build]:"
                  (match calls evs, successes evs with
                   | [], _ => "warning=no.calls"
                   | _ :: _, [] => "warning=no.successful.calls"
                   | _ :: _, _ :: _ => ""
                   end))).
Proof.
  assert (exists s', Runner.Start NewRequest_any Do_refused
                       (probe_8080 cmd_get 2 0) fresh = Ret tt s')
    as (s' & Hret) by (eexists; vm_compute; reflexivity).
  destruct (warning_of_a_run NewRequest_any Do_refused
              (probe_8080 cmd_get 2 0) fresh s' eq_refl Hret)
    as (evs & Htr & Hlast).
  exists s', evs. split; [exact Hret|]. split; [exact Htr|exact Hlast].
Defined.

Lemma no_commands_no_calls :
  exists s',
    Runner.Start NewRequest_any Do_ok probe_no_cmds fresh = Ret tt s'
    /\ DoneChan s' = true
    /\ callCount s' = 0 /\ errCount s' = 0 /\ okCount s' = 0
    /\ trace s'
       = [EvSleep 9000000000;
          EvPrint (LineStarting "docker-slim[build]:");
          EvLog "HTTP probe started..."; EvLog "HTTP probe done.";
          EvPrint (LineSummary "docker-slim[build]:" 0 0 0);
          EvPrint (LineDone "docker-slim[build]:" "warning=no.calls");
          EvClose].
Proof.
  apply (no_ports_or_commands_no_calls NewRequest_any Do_ok probe_no_cmds
           fresh).
  - by right.
  - reflexivity.
Defined.

Lemma returns_iff_requests_built_8080 :
  (exists s' evs,
     Runner.Start NewRequest_any Do_refused (probe_8080 cmd_get 2 0) fresh
     = Ret tt s'
     /\ DoneChan s' = true
     /\ trace s' = trace fresh ++ evs ++ [EvClose]
     /\ closes evs = [])
  /\ (exists s' evs,
        Runner.Start NewRequest_any Do_refused
          (probe_8080 cmd_bad_method 2 0) fresh = Panic s'
        /\ DoneChan s' = false
        /\ trace s' = trace fresh ++ evs
        /\ closes evs = []).
Proof.
  split.
  - apply (returns_iff_requests_built NewRequest_any Do_refused
             (probe_8080 cmd_get 2 0) fresh eq_refl).
    apply requests_ok_8080.
  - apply (returns_iff_requests_built NewRequest_any Do_refused
             (probe_8080 cmd_bad_method 2 0) fresh eq_refl).
    intros Hok.
    destruct (Hok "8080" cmd_bad_method "http") as (r & Hr);
      [set_solver..|].
    revert Hr. vm_compute. discriminate.
Defined.

Lemma second_start_panics_8080 :
  exists s' evs,
    Runner.Start NewRequest_any Do_ok (probe_8080 cmd_get 2 0)
      after_first_run = Panic s'
    /\ trace s' = trace after_first_run ++ evs
    /\ closes evs = []
    /\ exists before,
         evs = before ++ finishEvents (probe_8080 cmd_get 2 0) s'.
Proof.
  destruct (second_start_panics NewRequest_any Do_ok
              (probe_8080 cmd_get 2 0) after_first_run eq_refl)
    as (s' & evs & Hpanic & Htr & Hcl & Hlast).
  exists s', evs. split; [exact Hpanic|]. split; [exact Htr|].
  split; [exact Hcl|]. apply Hlast, requests_ok_8080.
Defined.

Lemma calls_in_loop_order_8080 :
  exists s' evs css,
    Runner.Start NewRequest_any Do_second (probe_8080 cmd_get 3 0) fresh
    = Ret tt s'
    /\ trace s' = trace fresh ++ evs
    /\ calls evs = concat css
    /\ Forall2
         (fun c cs =>
            exists r,
              NewRequest_any (Method c.1.2)
                (target (probe_8080 cmd_get 3 0) c.1.1 c.1.2 c.2) = Some r
              /\ retried (prepared c.1.2 r) 3 cs)
         [("8080", cmd_get, "http"); ("8080", cmd_get, "https")] css.
Proof.
  apply (calls_in_loop_order NewRequest_any Do_second
           (probe_8080 cmd_get 3 0) fresh).
  - apply requests_ok_8080.
  - reflexivity.
Defined.

Lemma calls_bounded_8080 :
  exists s' evs,
    Runner.Start NewRequest_any Do_second (probe_8080 cmd_get 3 0) fresh
    = Ret tt s'
    /\ trace s' = trace fresh ++ evs
    /\ (2 <= length (calls evs) <= 6)%nat.
Proof.
  destruct (calls_bounded NewRequest_any Do_second
              (probe_8080 cmd_get 3 0) fresh)
    as (s' & evs & Hret & Htr & Hbounds & _).
  - apply requests_ok_8080.
  - reflexivity.
  - exists s', evs. split; [exact Hret|]. split; [exact Htr|].
    exact Hbounds.
Defined.

Lemma one_call_each_8080 :
  exists s' evs,
    Runner.Start NewRequest_any Do_ok (probe_8080 cmd_get 3 0) fresh
    = Ret tt s'
    /\ trace s' = trace fresh ++ evs
    /\ length (calls evs) = 2%nat
    /\ callCount s' = 2 /\ okCount s' = 2 /\ errCount s' = 0
    /\ sleeps evs = [9000000000].
Proof.
  destruct (one_call_each_when_all_succeed NewRequest_any Do_ok
              (probe_8080 cmd_get 3 0) fresh)
    as (s' & evs & Hret & Htr & Hcalls & Hc & Ho & He & Hs).
  - apply requests_ok_8080.
  - reflexivity.
  - intros h req. reflexivity.
  - exists s', evs. split; [exact Hret|]. split; [exact Htr|].
    split; [symmetry; exact (Forall2_length _ _ _ Hcalls)|].
    repeat split; done.
Defined.

Lemma credentials_password_only :
  exists req res s' evs,
    Runner.attempt NewRequest_any Do_ok (probe_8080 cmd_auth 0 0) cmd_auth
      "https://127.0.0.1:8080/login" 0 fresh = Ret (succeeded res) s'
    /\ trace s' = trace fresh ++ evs
    /\ calls evs = [(req, res)]
    /\ ReqMethod req = "POST"
    /\ ReqURL req = "https://127.0.0.1:8080/login"
    /\ BasicAuth req = Some ("", "secret").
Proof.
  apply (credentials_when_set NewRequest_any Do_ok
           (probe_8080 cmd_auth 0 0) cmd_auth
           "https://127.0.0.1:8080/login" 0 fresh
           {| ReqMethod := "POST";
              ReqURL := "https://127.0.0.1:8080/login";
              Header := []; BasicAuth := None |}).
  vm_compute. reflexivity.
Defined.

Lemma backoff_waits_ordered_3 :
  0 <= 1000000000
  /\ 1000000000 <= 3000000000
  /\ 3000000000 <= 6000000000
  /\ (0 < 3 -> 6000000000 = 2 * 3000000000).
Proof.
  apply (backoff_waits_ordered (probe_8080 cmd_get 0 3)).
  vm_compute. discriminate.
Defined.

Lemma attempts_numbered_refused :
  exists s' evs,
    Runner.probeProtocol NewRequest_any Do_refused
      (probe_8080 cmd_get 3 0) "8080" cmd_get "http" fresh = Ret tt s'
    /\ trace s' = trace fresh ++ evs
    /\ omap attemptOf (prints evs)
       = seqZ 1 (Z.of_nat (length (calls evs)))
    /\ Z.of_nat (length (calls evs)) <= 3.
Proof.
  apply (attempts_numbered_from_one NewRequest_any Do_refused
           (probe_8080 cmd_get 3 0) "8080" cmd_get "http" fresh
           (request_8080 "http")).
  - vm_compute. reflexivity.
  - reflexivity.
Defined.

Lemma unavailable_target_7000 :
  exists probe,
    Resolver.NewCustomProbe map_to_list elements inspector_8080_9090 []
      0 0 [7000%N] true "" = Some probe
    /\ Ports probe = []
    /\ forall s,
         doneClosed s = false ->
         exists s',
           Runner.Start NewRequest_any Do_ok probe s = Ret tt s'
           /\ calls (trace s') = calls (trace s)
           /\ DoneChan s' = true.
Proof.
  apply (unavailable_targets_no_calls map_to_list elements NewRequest_any
           Do_ok inspector_8080_9090 [] 0 0 [7000%N] true ""
           {["8080"; "9090"]}).
  - vm_compute. reflexivity.
  - discriminate.
  - intros pnum Hin. apply list_elem_of_singleton in Hin as ->.
    vm_compute. intros Hin. discriminate.
Defined.

End RunnerMore.
